(** * bib_to_tree: BibTeX entries to Forester reference trees

    A shallow embedding of [scripts/bib_to_tree.py] and the properties its
    specification states about it.

    Conventions of the embedding.
    - A Python [str] is a [list ascii]; a character is read as the code point
      of the same number, so the strings covered are those over U+0000..U+00FF.
      The character classes ([str.isspace], [str.isdigit], [str.lower]) are
      Python's on that range.
    - [None] is [option]'s [None]; a raised exception is the [Raise] outcome of
      the result type [res].
    - A record ([Dict[str, str]], insertion ordered) is an association list
      in iteration order.
    - [int] rejects a literal of more than 4300 digits, the default of
      [sys.int_info.default_max_str_digits], which the script leaves as it is.
    - The file system is a finite map from target paths to file contents:
      what exists at a target is a regular file, and a write succeeds. The
      errors of the operating system (a directory at the target, a parent
      that cannot be created, permissions) are outside the embedding, and
      no property below says that they do not occur.
    - A path is the string of a [Path] object. *)

(** [scripts/create_tree.py] is embedded as well: [to_base36],
    [find_next_stem] and [create_tree_file]. A directory is a finite map from
    entry names to entries; [glob] yields its names in the order of the map,
    on which the result is shown not to depend. The date line, which comes
    from the clock, is an argument. *)

From Stdlib Require Import ZArith NArith Ascii String List Bool Lia.
From Stdlib Require Import DecimalString.
From stdpp Require Import base option list gmap strings.

Local Open Scope list_scope.

(* ------------------------------------------------------------------------ *)
(** * Strings *)
(* ------------------------------------------------------------------------ *)

Abbreviation str := (list ascii).

Definition lit (s : string) : str := list_ascii_of_string s.

Definition code (c : ascii) : N := N_of_ascii c.

Definition in_range (lo hi : N) (c : ascii) : bool :=
  ((lo <=? code c) && (code c <=? hi))%N.

(** [str.isspace] on one character: TAB..CR, FS..US, SPACE, NEL, NBSP. *)
Definition is_space (c : ascii) : bool :=
  in_range 9 13 c || in_range 28 32 c || (code c =? 133)%N || (code c =? 160)%N.

(** [str.isdigit] on one character: the decimal digits and the superscripts
    two, three and one. *)
Definition is_digit (c : ascii) : bool :=
  in_range 48 57 c || (code c =? 178)%N || (code c =? 179)%N || (code c =? 185)%N.

(** The characters [int] reads as decimal digits. *)
Definition is_decimal (c : ascii) : bool := in_range 48 57 c.

(** [str.lower] on one character: A..Z and the accented capitals. *)
Definition lower_char (c : ascii) : ascii :=
  if in_range 65 90 c || in_range 192 214 c || in_range 216 222 c
  then ascii_of_N (code c + 32)
  else c.

Definition lower (s : str) : str := map lower_char s.

Definition is_empty (s : str) : bool :=
  match s with [] => true | _ => false end.

(** Python truthiness of a [str]. *)
Definition truthy (s : str) : bool := negb (is_empty s).

Fixpoint str_eqb (a b : str) : bool :=
  match a, b with
  | [], [] => true
  | x :: a', y :: b' => Ascii.eqb x y && str_eqb a' b'
  | _, _ => false
  end.

Fixpoint startswith (p s : str) : bool :=
  match p, s with
  | [], _ => true
  | x :: p', y :: s' => Ascii.eqb x y && startswith p' s'
  | _ :: _, [] => false
  end.

Definition endswith (p s : str) : bool := startswith (rev p) (rev s).

(** [s.lstrip], [s.rstrip] and [s.strip] for a character class. *)
Fixpoint lstrip_by (p : ascii -> bool) (s : str) : str :=
  match s with
  | [] => []
  | c :: t => if p c then lstrip_by p t else s
  end.

Definition rstrip_by (p : ascii -> bool) (s : str) : str :=
  rev (lstrip_by p (rev s)).

Definition strip_by (p : ascii -> bool) (s : str) : str :=
  rstrip_by p (lstrip_by p s).

Definition strip (s : str) : str := strip_by is_space s.

(** [s[a:-b]] for non-negative [a] and positive [b]. *)
Definition slice (a b : nat) (s : str) : str :=
  take (length s - b - a) (drop a s).

(** [s.replace(old, new)] for a one-character [old]. *)
Definition replace_char (old : ascii) (new : str) (s : str) : str :=
  flat_map (fun c => if Ascii.eqb c old then new else [c]) s.

(** [s.split()]: the maximal runs of non-space characters. *)
Fixpoint split_ws (s : str) : list str :=
  match s with
  | [] => []
  | c :: t =>
      if is_space c then split_ws t
      else match t with
           | [] => [[c]]
           | c' :: _ =>
               if is_space c' then [c] :: split_ws t
               else match split_ws t with
                    | w :: ws => (c :: w) :: ws
                    | [] => [[c]]
                    end
           end
  end.

(** [sep.join(parts)]. *)
Fixpoint join (sep : str) (parts : list str) : str :=
  match parts with
  | [] => []
  | [p] => p
  | p :: rest => p ++ sep ++ join sep rest
  end.

(** [s.split(sep)] for a non-empty [sep]: scan left to right; on a match emit
    the fragment read so far and skip the separator. [skip] counts the
    characters of a matched separator still to pass over, [cur] is the
    fragment being read, reversed. *)
Fixpoint split_on (sep : str) (skip : nat) (cur : str) (s : str) : list str :=
  match s with
  | [] => [rev cur]
  | c :: t =>
      match skip with
      | S k => split_on sep k cur t
      | O =>
          if startswith sep s
          then rev cur :: split_on sep (length sep - 1) [] t
          else split_on sep 0 (c :: cur) t
      end
  end.

Definition split (sep : str) (s : str) : list str := split_on sep 0 [] s.

(* ------------------------------------------------------------------------ *)
(** * Outcomes *)
(* ------------------------------------------------------------------------ *)

Inductive exn : Type :=
  | ValueError
  | SystemExit (msg : str).

Inductive res (A : Type) : Type :=
  | Ok (a : A)
  | Raise (e : exn).
Arguments Ok {A} a.
Arguments Raise {A} e.

Definition res_bind {A B} (r : res A) (k : A -> res B) : res B :=
  match r with
  | Ok a => k a
  | Raise e => Raise e
  end.

Notation "'try' x <~ r ; k" := (res_bind r (fun x => k))
  (at level 10, x name, r at level 100, k at level 200).

Definition returns {A} (r : res A) : Prop := exists a, r = Ok a.

(* ------------------------------------------------------------------------ *)
(** * Helpers of bib_to_tree.py *)
(* ------------------------------------------------------------------------ *)

Definition brace_wrapped (value : str) : bool :=
  startswith (lit "{") value && endswith (lit "}") value && (1 <? length value).

(** The [while] loop of [_strip_braces]; every iteration shortens [value], so
    [length value] iterations are enough (see [strip_braces_loop_exit]). *)
Fixpoint strip_braces_loop (fuel : nat) (value : str) : str :=
  match fuel with
  | O => value
  | S fuel' =>
      if brace_wrapped value
      then strip_braces_loop fuel' (strip (slice 1 1 value))
      else value
  end.

Definition _strip_braces (value : str) : str :=
  let value := strip value in
  strip_braces_loop (length value) value.

Definition _clean_whitespace (value : option str) : str :=
  match value with
  | None => []
  | Some v =>
      if is_empty v then []
      else
        let flattened := join (lit " ") (split_ws (replace_char "010"%char (lit " ") v)) in
        _strip_braces flattened
  end.

Definition _format_authors (author_field : option str) : option str :=
  let raw := _clean_whitespace author_field in
  if is_empty raw then None
  else
    let authors :=
      map strip (List.filter (fun part => truthy (strip part))
                             (split (lit " and ") raw)) in
    match authors with
    | [] => None
    | _ => Some (join (lit ", ") authors)
    end.

(** The class [[a-z0-9]] of the regular expressions of [_slugify]. *)
Definition is_slug_char (c : ascii) : bool :=
  in_range 97 122 c || in_range 48 57 c.

Definition is_hyphen (c : ascii) : bool := Ascii.eqb c "-"%char.

(** [re.sub(r"C+", rep, s)] for a character class [C]: every maximal run of
    characters of the class is replaced by one [rep]. [in_run] tells whether
    the previous character belonged to the run being replaced. *)
Fixpoint re_sub_runs (cls : ascii -> bool) (rep : str) (in_run : bool) (s : str)
  : str :=
  match s with
  | [] => []
  | c :: t =>
      if cls c
      then (if in_run then [] else rep) ++ re_sub_runs cls rep true t
      else c :: re_sub_runs cls rep false t
  end.

Definition _slugify (name : str) : str :=
  let name := lower (strip name) in
  let name := _strip_braces name in
  let name := re_sub_runs (fun c => negb (is_slug_char c)) (lit "-") false name in
  let name := strip_by is_hyphen (re_sub_runs is_hyphen (lit "-") false name) in
  if truthy name then name else lit "reference".

(** ** [int] and the format specification [0Nd] *)

(** The white space [int] skips around a literal: the C locale's, and the
    non-ASCII spaces, which the conversion first turns into blanks. *)
Definition int_space (c : ascii) : bool :=
  in_range 9 13 c || (code c =? 32)%N || (code c =? 133)%N || (code c =? 160)%N.

(** Digits with single underscores between them; [prev_us] tells whether the
    previous character was an underscore. *)
Fixpoint int_digits (acc : Z) (prev_us : bool) (s : str) : option Z :=
  match s with
  | [] => if prev_us then None else Some acc
  | c :: t =>
      if Ascii.eqb c "_"%char
      then (if prev_us then None else int_digits acc true t)
      else if is_decimal c
           then int_digits (10 * acc + (Z.of_N (code c) - 48)) false t
           else None
  end.

(** The most digits [int] reads: [sys.int_info.default_max_str_digits]. *)
Definition int_max_str_digits : nat := 4300.

(** The digits of a literal, leading zeros included, underscores not. *)
Definition digit_count (body : str) : nat := length (List.filter is_decimal body).

(** [int(s)]: [None] stands for [ValueError], which is raised for a string
    that is no literal and for a literal of more than [int_max_str_digits]
    digits. *)
Definition py_int (s : str) : option Z :=
  let s := strip_by int_space s in
  let '(negative, body) :=
    match s with
    | c :: t =>
        if Ascii.eqb c "-"%char then (true, t)
        else if Ascii.eqb c "+"%char then (false, t)
        else (false, s)
    | [] => (false, s)
    end in
  match body with
  | c :: _ =>
      if is_decimal c
      then match int_digits 0 false body with
           | Some z =>
               if int_max_str_digits <? digit_count body then None
               else Some (if negative then (- z)%Z else z)
           | None => None
           end
      else None
  | [] => None
  end.

Definition digits_of (n : N) : str :=
  list_ascii_of_string (NilEmpty.string_of_uint (N.to_uint n)).

Definition zfill (width : nat) (s : str) : str :=
  repeat "0"%char (width - length s) ++ s.

(** [f"{z:0Nd}"]: sign first, then zeros up to the width. *)
Definition format_d0 (width : nat) (z : Z) : str :=
  if (z <? 0)%Z
  then "-"%char :: zfill (width - 1) (digits_of (Z.abs_N z))
  else zfill width (digits_of (Z.to_N z)).

(** [s.isdigit()]. *)
Definition isdigit (s : str) : bool := truthy s && forallb is_digit s.

Definition name_map : list (str * Z) :=
  [ (lit "jan", 1); (lit "feb", 2); (lit "mar", 3); (lit "apr", 4);
    (lit "may", 5); (lit "jun", 6); (lit "jul", 7); (lit "aug", 8);
    (lit "sep", 9); (lit "sept", 9); (lit "oct", 10); (lit "nov", 11);
    (lit "dec", 12) ]%Z.

(** [d.get(key, default)] and [d.get(key)] on an association list. *)
Fixpoint get {V} (key : str) (d : list (str * V)) : option V :=
  match d with
  | [] => None
  | (k, v) :: rest => if str_eqb k key then Some v else get key rest
  end.

Definition get_default {V} (key : str) (default : V) (d : list (str * V)) : V :=
  match get key d with
  | Some v => v
  | None => default
  end.

Definition _parse_month (month : option str) : res Z :=
  match month with
  | None => Ok 1%Z
  | Some m =>
      if is_empty m then Ok 1%Z
      else
        let month := lower (strip m) in
        if isdigit month
        then match py_int month with
             | None => Raise ValueError
             | Some value =>
                 if ((1 <=? value) && (value <=? 12))%Z
                 then Ok value
                 else Ok (get_default (take 3 month) 1%Z name_map)
             end
        else Ok (get_default (take 3 month) 1%Z name_map)
  end.

Abbreviation entry := (list (str * str)).

Definition _format_date (e : entry) : res (option str) :=
  let year := _clean_whitespace (get (lit "year") e) in
  if is_empty year then Ok None
  else
    try month <~ _parse_month (Some (_clean_whitespace (get (lit "month") e)));
    let day := _clean_whitespace (get (lit "day") e) in
    let day_value :=
      if truthy day
      then match py_int day with
           | Some v => v
           | None => 1%Z
           end
      else 1%Z in
    let day_value := Z.min (Z.max day_value 1) 31 in
    match py_int year with
    | None => Raise ValueError
    | Some y =>
        Ok (Some (format_d0 4 y ++ lit "-" ++ format_d0 2 month
                  ++ lit "-" ++ format_d0 2 day_value))
    end.

Definition _strip_url_command (value : str) : str :=
  let trimmed := strip value in
  if startswith (lit "\url{") trimmed && endswith (lit "}") trimmed
  then strip (slice 5 1 trimmed)
  else trimmed.

Definition _escape_meta_value (value : str) : str :=
  replace_char "%"%char (lit "\%") value.

Definition mem (x : str) (xs : list str) : bool := existsb (str_eqb x) xs.

Definition URL_FIELDS : list str := [lit "url"; lit "howpublished"; lit "external"].

Definition skip : list str :=
  [lit "title"; lit "author"; lit "year"; lit "month"; lit "day"].

(** The generator [_meta_pairs], as the list of the pairs it yields. *)
Fixpoint _meta_pairs (e : entry) : list (str * str) :=
  match e with
  | [] => []
  | (field, value) :: rest =>
      if mem field skip then _meta_pairs rest
      else
        let cleaned := _clean_whitespace (Some value) in
        if truthy cleaned
        then
          let meta_key :=
            if mem (lower field) URL_FIELDS then lit "external" else field in
          let cleaned :=
            if str_eqb meta_key (lit "external")
            then _strip_url_command cleaned
            else cleaned in
          (meta_key, _escape_meta_value cleaned) :: _meta_pairs rest
        else _meta_pairs rest
  end.

(* ------------------------------------------------------------------------ *)
(** * Core conversion *)
(* ------------------------------------------------------------------------ *)

Definition newline : str := ["010"%char].

Definition title_line (title : str) : str := lit "\title{" ++ title ++ lit "}".
Definition taxon_line : str := lit "\taxon{Reference}".
Definition author_line (authors : str) : str :=
  lit "\author/literal{" ++ authors ++ lit "}".
Definition date_line (date_value : str) : str :=
  lit "\date{" ++ date_value ++ lit "}".
Definition meta_line (kv : str * str) : str :=
  lit "\meta{" ++ fst kv ++ lit "}{" ++ snd kv ++ lit "}".

(** The [for] loop over [_meta_pairs]: append a line for each pair whose value
    is truthy. *)
Fixpoint append_meta (lines : list str) (pairs : list (str * str)) : list str :=
  match pairs with
  | [] => lines
  | (key, value) :: rest =>
      if truthy value
      then append_meta (lines ++ [meta_line (key, value)]) rest
      else append_meta lines rest
  end.

Definition build_lines (e : entry) : res (list str) :=
  let title :=
    let t := _clean_whitespace (get (lit "title") e) in
    if truthy t then t else lit "Untitled" in
  let lines := [title_line title; taxon_line] in
  let authors := _format_authors (get (lit "author") e) in
  let lines :=
    match authors with
    | Some a => if truthy a then lines ++ [author_line a] else lines
    | None => lines
    end in
  try date_value <~ _format_date e;
  let lines :=
    match date_value with
    | Some d => if truthy d then lines ++ [date_line d] else lines
    | None => lines
    end in
  let lines := append_meta lines (_meta_pairs e) in
  Ok (lines ++ [[]]).

Definition build_tree_content (e : entry) : res str :=
  try lines <~ build_lines e;
  Ok (join newline lines).

(** ** The batch converter *)

(** [dir / name] as strings: [dir] is the string of a [Path], so ["."] for
    the current directory and without a final slash unless it is a root;
    [name] is one component. *)
Definition path_join (dir name : str) : str :=
  if str_eqb dir (lit ".") then name
  else if endswith (lit "/") dir then dir ++ name
  else dir ++ lit "/" ++ name.

Definition citekey (e : entry) : str :=
  match get (lit "ID") e with
  | Some id => if truthy id then id else _slugify (get_default (lit "title") (lit "reference") e)
  | None => _slugify (get_default (lit "title") (lit "reference") e)
  end.

Definition filename (e : entry) : str := _slugify (citekey e) ++ lit ".tree".

Definition target (output_dir : str) (e : entry) : str :=
  path_join output_dir (filename e).

Definition refusal (target : str) : str :=
  lit "Refusing to overwrite existing file " ++ target
  ++ lit ". Use --overwrite to replace.".

(** [target.exists()]. *)
Definition path_exists (disk : gmap str str) (path : str) : bool :=
  match disk !! path with
  | Some _ => true
  | None => false
  end.

(** The [for] loop of [convert_bibtex], threading the disk (target path to
    contents) and the list of created paths; the disk is returned whatever
    the outcome, as it is when the run stops. *)
Fixpoint convert_loop (output_dir : str) (overwrite : bool)
    (entries : list entry) (disk : gmap str str) (created_paths : list str)
  : gmap str str * res (list str) :=
  match entries with
  | [] => (disk, Ok created_paths)
  | e :: rest =>
      let tgt := target output_dir e in
      if path_exists disk tgt && negb overwrite
      then (disk, Raise (SystemExit (refusal tgt)))
      else
        match build_tree_content e with
        | Raise x => (disk, Raise x)
        | Ok body =>
            convert_loop output_dir overwrite rest (<[tgt := body]> disk)
                         (created_paths ++ [tgt])
        end
  end.

(** [convert_bibtex], from the entries the parser returned for [source]. *)
Definition convert_bibtex (source : str) (entries : list entry)
    (output_dir : str) (overwrite : bool) (disk : gmap str str)
  : gmap str str * res (list str) :=
  match entries with
  | [] => (disk, Raise (SystemExit (lit "No BibTeX entries found in " ++ source)))
  | _ => convert_loop output_dir overwrite entries disk []
  end.

(* ------------------------------------------------------------------------ *)
(** * create_tree.py: the next numbered tree file *)
(* ------------------------------------------------------------------------ *)

(** The exceptions of [create_tree.py], with their messages. *)
Inductive tree_exn : Type :=
  | TreeValueError (msg : str)
  | FileNotFoundError (msg : str)
  | NotADirectoryError (msg : str)
  | FileExistsError (msg : str).

Inductive outcome (A : Type) : Type :=
  | Done (a : A)
  | Fail (e : tree_exn).
Arguments Done {A} a.
Arguments Fail {A} e.

(** [[0-9a-zA-Z]], the class of [BASE36_STEM]. *)
Definition is_base36_char (c : ascii) : bool :=
  in_range 48 57 c || in_range 97 122 c || in_range 65 90 c.

(** [BASE36_STEM.fullmatch(stem)] for [^[0-9a-zA-Z]{4}$]. *)
Definition BASE36_STEM_fullmatch (stem : str) : bool :=
  Nat.eqb (length stem) 4 && forallb is_base36_char stem.

Definition MAX_VALUE : Z := (36 ^ 4 - 1)%Z.

Definition BASE36_DIGITS : str := lit "0123456789abcdefghijklmnopqrstuvwxyz".

(** [s.rjust(width, fill)]. *)
Definition rjust (width : nat) (fill : ascii) (s : str) : str :=
  repeat fill (width - length s) ++ s.

(** The [while n > 0] loop of [to_base36]. The index [n mod 36] is within
    [BASE36_DIGITS], so the default of [nth] is never taken. Every iteration
    divides [n] by 36; the fuel given by [to_base36] is enough (see
    [base36_loop_fuel]). *)
Fixpoint base36_loop (fuel : nat) (n : Z) (digits : list ascii) : list ascii :=
  match fuel with
  | O => digits
  | S fuel' =>
      if (n >? 0)%Z
      then base36_loop fuel' (n / 36)
             (digits ++ [nth (Z.to_nat (n mod 36)) BASE36_DIGITS "0"%char])
      else digits
  end.

Definition to_base36 (value : Z) (width : Z) : outcome str :=
  if (value <? 0)%Z
  then Fail (TreeValueError (lit "Negative values cannot be converted to base-36"))
  else
    let digits :=
      if (value =? 0)%Z then ["0"%char]
      else base36_loop (S (Z.to_nat (Z.log2 value))) value [] in
    let base36 := rev digits in
    if (Z.of_nat (length base36) >? width)%Z
    then Fail (TreeValueError (lit "Value exceeds allotted width for base-36 encoding"))
    else Done (rjust (Z.to_nat width) "0"%char base36).

(** [name.rfind(c)]: the index of the last [c], [None] for -1. *)
Fixpoint rfind_char (c : ascii) (name : str) : option nat :=
  match name with
  | [] => None
  | x :: t =>
      match rfind_char c t with
      | Some i => Some (S i)
      | None => if Ascii.eqb x c then Some 0 else None
      end
  end.

(** [Path.stem] of a file name: the name without its last suffix, a dot at
    either end of the name starting no suffix. *)
Definition path_stem (name : str) : str :=
  match rfind_char "."%char name with
  | Some i => if (0 <? i) && (i <? length name - 1) then take i name else name
  | None => name
  end.

(** [tree_dir.glob("*.tree")], on the names of the entries of the directory
    in the order the directory yields them. *)
Definition glob_tree (names : list str) : list str :=
  List.filter (endswith (lit ".tree")) names.

(** The value of a base-36 digit, letters in either case. *)
Definition int36_digit (c : ascii) : Z :=
  if in_range 48 57 c then (Z.of_N (code c) - 48)%Z
  else if in_range 97 122 c then (Z.of_N (code c) - 87)%Z
  else if in_range 65 90 c then (Z.of_N (code c) - 55)%Z
  else 0%Z.

(** [int(stem, 36)] on the stems [BASE36_STEM] lets through: digits and
    letters only. *)
Definition int36 (stem : str) : Z :=
  fold_left (fun acc c => (36 * acc + int36_digit c)%Z) stem 0%Z.

(** The body of the [for] loop of [find_next_stem]. *)
Definition scan_stem (highest : Z) (name : str) : Z :=
  let stem := path_stem name in
  if BASE36_STEM_fullmatch stem
  then
    let value := int36 stem in
    if (value >? highest)%Z then value else highest
  else highest.

(** [find_next_stem], from the names of the entries of [tree_dir]. *)
Definition find_next_stem (names : list str) : outcome str :=
  let highest := fold_left scan_stem (glob_tree names) (-1)%Z in
  let next_value := (highest + 1)%Z in
  if (next_value >? MAX_VALUE)%Z
  then Fail (TreeValueError
               (lit "All 4-digit base-36 filenames are exhausted (zzzz reached)."))
  else to_base36 next_value 4.

(** What is at an entry of the tree directory. *)
Inductive dir_entry : Type :=
  | RegularFile (content : str)
  | SubDirectory.

(** What is at the path [tree_dir]. *)
Inductive dir_state : Type :=
  | Absent
  | NotDirectory
  | Directory (entries : gmap str dir_entry).

(** The names of a directory, in the order of the map. *)
Definition listing (entries : gmap str dir_entry) : list str :=
  map fst (map_to_list entries).

(** [create_tree_file]. [date_line] is what [format_date_line()] returns,
    which depends on the clock. The state of [tree_dir] is returned with the
    outcome. *)
Definition create_tree_file (tree_dir : str) (date_line : str) (st : dir_state)
  : dir_state * outcome str :=
  match st with
  | Absent =>
      (st, Fail (FileNotFoundError
                   (lit "Tree directory '" ++ tree_dir ++ lit "' does not exist.")))
  | NotDirectory =>
      (st, Fail (NotADirectoryError (lit "'" ++ tree_dir ++ lit "' is not a directory.")))
  | Directory entries =>
      match find_next_stem (listing entries) with
      | Fail e => (st, Fail e)
      | Done stem =>
          let name := stem ++ lit ".tree" in
          let target := path_join tree_dir name in
          match entries !! name with
          | Some _ =>
              (st, Fail (FileExistsError
                           (lit "Refusing to overwrite existing file: " ++ target)))
          | None =>
              let written := date_line ++ newline ++ newline in
              let appended := written ++ lit "\import{base-macros}" ++ newline ++ newline in
              (Directory (<[name := RegularFile appended]> entries), Done target)
          end
      end
  end.

(* ------------------------------------------------------------------------ *)
(** * Predicates and reference functions of the specification *)
(* ------------------------------------------------------------------------ *)

(** The first and the last character, when there is one, satisfy [q]. *)
Definition head_ok (q : ascii -> bool) (s : str) : bool :=
  match s with
  | [] => true
  | c :: _ => q c
  end.

Definition last_ok (q : ascii -> bool) (s : str) : bool := head_ok q (rev s).

(** Every character of the class [p] is the character [sep], and no two of
    them are adjacent. *)
Fixpoint isolated (p : ascii -> bool) (sep : ascii) (s : str) : bool :=
  match s with
  | [] => true
  | c :: t =>
      (negb (p c) || (Ascii.eqb c sep && head_ok (fun c' => negb (p c')) t))
      && isolated p sep t
  end.

(** Every space character is a blank, and no two of them are adjacent. *)
Abbreviation sparse := (isolated is_space " "%char).

Definition not_space (c : ascii) : bool := negb (is_space c).

(** No leading or trailing space, and [sparse] inside: the form [" ".join]
    of [split()] produces. *)
Definition tidy (s : str) : Prop :=
  sparse s = true /\ head_ok not_space s = true /\ last_ok not_space s = true.

(** A fragment of [split()]: non-empty and free of space. *)
Definition word (w : str) : Prop := w <> [] /\ forallb not_space w = true.

(** A recogniser of [[a-z0-9]+(-[a-z0-9]+)*]: [in_group] tells whether the
    previous character was alphanumeric, which is when a hyphen or the end of
    the string is allowed. *)
Fixpoint matches_slug (in_group : bool) (s : str) : bool :=
  match s with
  | [] => in_group
  | c :: t =>
      if is_slug_char c then matches_slug true t
      else if is_hyphen c then in_group && matches_slug false t
      else false
  end.

Definition slug_pattern (s : str) : bool := matches_slug false s.

Definition not_hyphen (c : ascii) : bool := negb (is_hyphen c).
Definition not_slug_char (c : ascii) : bool := negb (is_slug_char c).
Definition slug_or_hyphen (c : ascii) : bool := is_slug_char c || is_hyphen c.

(** One or more characters of [[a-z0-9]]. *)
Definition slug_group (g : str) : Prop := g <> [] /\ forallb is_slug_char g = true.

(** [(-[a-z0-9]+)*], from the list of the groups. *)
Definition hyphenated (gs : list str) : str :=
  concat (map (fun g => "-"%char :: g) gs).

(** A string of the language of [[a-z0-9]+(-[a-z0-9]+)*]. *)
Definition in_slug_language (s : str) : Prop :=
  exists g gs, slug_group g /\ Forall slug_group gs /\ s = g ++ hyphenated gs.

(** The twelve three-letter month prefixes. *)
Definition month_prefixes : list (str * Z) :=
  [ (lit "jan", 1); (lit "feb", 2); (lit "mar", 3); (lit "apr", 4);
    (lit "may", 5); (lit "jun", 6); (lit "jul", 7); (lit "aug", 8);
    (lit "sep", 9); (lit "oct", 10); (lit "nov", 11); (lit "dec", 12) ]%Z.

(** The value of a string of decimal digits. *)
Definition decimal_value (s : str) : Z :=
  fold_left (fun acc c => (10 * acc + (Z.of_N (code c) - 48))%Z) s 0%Z.

Definition all_decimal (s : str) : bool := truthy s && forallb is_decimal s.

(** [parse_month] after the words of the specification: a numeric string of
    one or two digits with a value from 1 to 12 gives that value; any other
    input gives the month whose three-letter prefix is the first three
    letters of the lowercased, trimmed input; 1 when there is none. *)
Definition parse_month_spec (raw : option str) : Z :=
  match raw with
  | None => 1%Z
  | Some m =>
      let month := lower (strip m) in
      if all_decimal month && (length month <=? 2)
         && (1 <=? decimal_value month)%Z && (decimal_value month <=? 12)%Z
      then decimal_value month
      else get_default (take 3 month) 1%Z month_prefixes
  end.

(** The same without the bound on the number of digits. *)
Definition parse_month_digits (raw : option str) : Z :=
  match raw with
  | None => 1%Z
  | Some m =>
      let month := lower (strip m) in
      if all_decimal month
         && (1 <=? decimal_value month)%Z && (decimal_value month <=? 12)%Z
      then decimal_value month
      else get_default (take 3 month) 1%Z month_prefixes
  end.

(** The digits of [str.isdigit] that [int] does not read. *)
Definition is_superscript_digit (c : ascii) : bool :=
  (code c =? 178)%N || (code c =? 179)%N || (code c =? 185)%N.

(** A string [str.isdigit] accepts and [int] rejects: all digits, with a
    superscript digit among them or more than [int_max_str_digits] of them. *)
Definition unreadable_number (s : str) : bool :=
  isdigit s && (existsb is_superscript_digit s || (int_max_str_digits <? length s)).

(** The day of [_format_date]: the integer read from the cleaned field, 1
    when the field is empty or is not an integer, brought into 1..31. *)
Definition day_of (e : entry) : Z :=
  let day := _clean_whitespace (get (lit "day") e) in
  let day_value :=
    match py_int day with
    | Some v => if truthy day then v else 1%Z
    | None => 1%Z
    end in
  Z.min (Z.max day_value 1) 31.

(** A field survives projection: its name is none of the five core keys and
    its cleaned value is not empty. *)
Definition survives (fv : str * str) : bool :=
  negb (mem (fst fv) skip) && truthy (_clean_whitespace (Some (snd fv))).

(** The field name is [url], [howpublished] or [external], whatever the
    case of its letters. *)
Definition url_bearing (field : str) : bool := mem (lower field) URL_FIELDS.

(** The entry emitted for a surviving field. *)
Definition project (fv : str * str) : str * str :=
  let cleaned := _clean_whitespace (Some (snd fv)) in
  if url_bearing (fst fv)
  then (lit "external", _escape_meta_value (_strip_url_command cleaned))
  else (fst fv, _escape_meta_value cleaned).

(** Every percent sign comes right after a backslash; [prev] tells whether
    the previous character was one. *)
Fixpoint percent_escaped (prev : bool) (s : str) : bool :=
  match s with
  | [] => true
  | c :: t =>
      (if Ascii.eqb c "%"%char then prev else true)
      && percent_escaped (Ascii.eqb c "\"%char) t
  end.

(** The title of the title line. *)
Definition title_of (e : entry) : str :=
  let t := _clean_whitespace (get (lit "title") e) in
  if truthy t then t else lit "Untitled".

(** The line of an optional field: present exactly when the field is. *)
Definition opt_line (render : str -> str) (field : option str) : list str :=
  match field with
  | Some x => [render x]
  | None => []
  end.

Definition has_value (kv : str * str) : bool := truthy (snd kv).

(** The content lines of the document of [e], [d] being its date. *)
Definition content_lines (e : entry) (d : option str) : list str :=
  [title_line (title_of e); taxon_line]
  ++ opt_line author_line (_format_authors (get (lit "author") e))
  ++ opt_line date_line d
  ++ map meta_line (List.filter has_value (_meta_pairs e)).

Definition is_title_line (l : str) : bool := startswith (lit "\title{") l.
Definition is_taxon_line (l : str) : bool := startswith (lit "\taxon{") l.

(** The number of occurrences of a character. *)
Definition occ (x : ascii) (s : str) : nat := count_occ ascii_dec s x.

(** The digits of a number, least significant first, as their value. *)
Definition le_value (digits : list ascii) : Z :=
  fold_right (fun c acc => (int36_digit c + 36 * acc)%Z) 0%Z digits.

(** A character of [BASE36_DIGITS]. *)
Definition is_base36_lower (c : ascii) : bool :=
  in_range 48 57 c || in_range 97 122 c.

(** A name the loop of [find_next_stem] takes into account, and its value. *)
Definition numbered (name : str) : bool :=
  endswith (lit ".tree") name && BASE36_STEM_fullmatch (path_stem name).

Definition number_of (name : str) : Z := int36 (path_stem name).

(** The exception of [find_next_stem]. *)
Definition names_exhausted : tree_exn :=
  TreeValueError (lit "All 4-digit base-36 filenames are exhausted (zzzz reached).").

(** The contents [create_tree_file] gives a new file. *)
Definition new_tree_content (date_line : str) : str :=
  date_line ++ newline ++ newline ++ lit "\import{base-macros}" ++ newline ++ newline.

(** What a run writes for one record: its document, at its target. *)
Definition write_document (output_dir : str) (disk : gmap str str) (e : entry)
  : gmap str str :=
  match build_tree_content e with
  | Ok body => <[target output_dir e := body]> disk
  | Raise _ => disk
  end.

(** Sample data: the contents of a file left by an earlier run, and a
    record. *)
Definition stale : str := lit "stale".

Definition paper : entry :=
  [(lit "ID", lit "Doe2021"); (lit "title", lit "On Trees"); (lit "year", lit "2021")].

(* ------------------------------------------------------------------------ *)
(** * Properties of the string primitives *)
(* ------------------------------------------------------------------------ *)

Ltac by_cases_on_char c :=
  destruct c as [[|] [|] [|] [|] [|] [|] [|] [|]]; vm_compute; try reflexivity; try congruence.

Lemma str_eqb_eq (a b : str) : str_eqb a b = true <-> a = b.
Proof.
  revert b; induction a as [|x a IH]; intros [|y b]; simpl; split; try congruence.
  - intros H. apply andb_true_iff in H as [Hxy Hab].
    apply Ascii.eqb_eq in Hxy. apply IH in Hab. congruence.
  - intros [= -> ->]. rewrite Ascii.eqb_refl. simpl. now apply IH.
Qed.

Lemma lstrip_by_suffix p s : exists a, s = a ++ lstrip_by p s.
Proof.
  induction s as [|c t [a IH]]; simpl.
  - now exists [].
  - destruct (p c).
    + exists (c :: a). simpl. now f_equal.
    + now exists [].
Qed.

Lemma rstrip_by_prefix p s : exists b, s = rstrip_by p s ++ b.
Proof.
  unfold rstrip_by. destruct (lstrip_by_suffix p (rev s)) as [a Ha].
  exists (rev a). rewrite <- rev_app_distr, <- Ha. symmetry. apply rev_involutive.
Qed.

Lemma strip_by_segment p s : exists a b, s = a ++ strip_by p s ++ b.
Proof.
  unfold strip_by. destruct (lstrip_by_suffix p s) as [a Ha].
  destruct (rstrip_by_prefix p (lstrip_by p s)) as [b Hb].
  exists a, b. now rewrite <- Hb.
Qed.

Lemma strip_by_length p s : length (strip_by p s) <= length s.
Proof.
  destruct (strip_by_segment p s) as (a & b & H).
  rewrite H at 2. rewrite !length_app. lia.
Qed.

Lemma slice_segment a b s : exists x y, s = x ++ slice a b s ++ y.
Proof.
  unfold slice. exists (take a s), (drop (length s - b - a) (drop a s)).
  now rewrite take_drop, take_drop.
Qed.

Lemma slice_length a b s : length (slice a b s) = length s - b - a.
Proof. unfold slice. rewrite length_take, length_drop. lia. Qed.

Lemma head_ok_lstrip p s : head_ok (fun c => negb (p c)) (lstrip_by p s) = true.
Proof.
  induction s as [|c t IH]; simpl; [reflexivity|].
  destruct (p c) eqn:E; [exact IH|]. simpl. now rewrite E.
Qed.

Lemma lstrip_by_id p s : head_ok (fun c => negb (p c)) s = true -> lstrip_by p s = s.
Proof. destruct s as [|c t]; simpl; [reflexivity|]. now destruct (p c). Qed.

Lemma rstrip_by_id p s : last_ok (fun c => negb (p c)) s = true -> rstrip_by p s = s.
Proof.
  unfold last_ok, rstrip_by. intros H. rewrite lstrip_by_id by exact H.
  apply rev_involutive.
Qed.

Lemma last_ok_rstrip p s : last_ok (fun c => negb (p c)) (rstrip_by p s) = true.
Proof. unfold last_ok, rstrip_by. rewrite rev_involutive. apply head_ok_lstrip. Qed.

Lemma head_ok_prefix q a b : head_ok q (a ++ b) = true -> head_ok q a = true.
Proof. now destruct a. Qed.

Lemma head_ok_rstrip q p s : head_ok q s = true -> head_ok q (rstrip_by p s) = true.
Proof.
  intros H. destruct (rstrip_by_prefix p s) as [b Hb].
  rewrite Hb in H. now apply head_ok_prefix in H.
Qed.

Lemma head_ok_strip p s : head_ok (fun c => negb (p c)) (strip_by p s) = true.
Proof. unfold strip_by. apply head_ok_rstrip, head_ok_lstrip. Qed.

Lemma last_ok_strip p s : last_ok (fun c => negb (p c)) (strip_by p s) = true.
Proof. unfold strip_by. apply last_ok_rstrip. Qed.

Lemma strip_by_id p s :
  head_ok (fun c => negb (p c)) s = true ->
  last_ok (fun c => negb (p c)) s = true ->
  strip_by p s = s.
Proof.
  intros Hh Hl. unfold strip_by. rewrite (lstrip_by_id _ _ Hh). now apply rstrip_by_id.
Qed.

Lemma head_ok_forallb q s : forallb q s = true -> head_ok q s = true.
Proof. destruct s; [reflexivity|]. simpl. intros H. now apply andb_true_iff in H as [H _]. Qed.

Lemma last_ok_forallb q s : forallb q s = true -> last_ok q s = true.
Proof.
  intros H. unfold last_ok. destruct (rev s) as [|c r] eqn:E; [reflexivity|].
  simpl. rewrite forallb_forall in H. apply H, in_rev. rewrite E. now left.
Qed.

Lemma last_ok_app_cons q a c b : last_ok q (a ++ c :: b) = last_ok q (c :: b).
Proof.
  unfold last_ok. rewrite rev_app_distr. simpl rev.
  destruct (rev b) as [|x r]; reflexivity.
Qed.

Lemma last_ok_cons_cons q c c' t : last_ok q (c :: c' :: t) = last_ok q (c' :: t).
Proof. apply (last_ok_app_cons q [c] c' t). Qed.

(** ** White space in normal form *)

Lemma isolated_app p sep a b :
  isolated p sep (a ++ b) = true -> isolated p sep a = true /\ isolated p sep b = true.
Proof.
  induction a as [|c t IH]; simpl; [now split|].
  intros H. apply andb_true_iff in H as [Hc Ht]. destruct (IH Ht) as [Ha Hb].
  split; [|exact Hb]. apply andb_true_iff. split; [|exact Ha].
  apply orb_true_iff in Hc as [Hc|Hc]; [now rewrite Hc|].
  apply andb_true_iff in Hc as [Hc1 Hc2]. rewrite Hc1. simpl.
  apply orb_true_iff. right. destruct t; [reflexivity|exact Hc2].
Qed.

Lemma isolated_segment p sep a m b :
  isolated p sep (a ++ m ++ b) = true -> isolated p sep m = true.
Proof.
  intros H. apply isolated_app in H as [_ H]. now apply isolated_app in H as [H _].
Qed.

Lemma isolated_strip_by p sep q s :
  isolated p sep s = true -> isolated p sep (strip_by q s) = true.
Proof.
  intros H. destruct (strip_by_segment q s) as (a & b & E).
  rewrite E in H. now apply isolated_segment in H.
Qed.

Lemma sparse_strip s : sparse s = true -> sparse (strip s) = true.
Proof. apply isolated_strip_by. Qed.

Lemma sparse_slice a b s : sparse s = true -> sparse (slice a b s) = true.
Proof.
  intros H. destruct (slice_segment a b s) as (x & y & E).
  rewrite E in H. now apply isolated_segment in H.
Qed.

Lemma tidy_strip s : sparse s = true -> tidy (strip s).
Proof.
  intros H. split; [now apply sparse_strip|]. split.
  - apply (head_ok_strip is_space).
  - apply (last_ok_strip is_space).
Qed.

Lemma strip_tidy s : tidy s -> strip s = s.
Proof. intros (_ & Hh & Hl). now apply strip_by_id. Qed.

Lemma split_ws_nonempty c t : is_space c = false -> split_ws (c :: t) <> [].
Proof.
  intros Hc. simpl. rewrite Hc. destruct t as [|c' t']; [discriminate|].
  destruct (is_space c'); [discriminate|]. destruct (split_ws (c' :: t')); discriminate.
Qed.

Lemma join_cons sep p q rest : join sep (p :: q :: rest) = p ++ sep ++ join sep (q :: rest).
Proof. reflexivity. Qed.

Lemma join_cons_char sep c w ws : join sep ((c :: w) :: ws) = c :: join sep (w :: ws).
Proof. destruct ws; reflexivity. Qed.

(** On a string whose spaces are in normal form, splitting and joining again
    only removes the leading space. *)
Lemma join_split_ws_sparse s :
  sparse s = true -> last_ok not_space s = true ->
  join (lit " ") (split_ws s) = lstrip_by is_space s.
Proof.
  induction s as [|c t IH]; [reflexivity|].
  intros Hsp Hl. simpl in Hsp. apply andb_true_iff in Hsp as [Hc Ht].
  destruct t as [|c' t'].
  - simpl. destruct (is_space c) eqn:E; [|reflexivity].
    unfold last_ok, not_space in Hl. simpl in Hl. now rewrite E in Hl.
  - rewrite last_ok_cons_cons in Hl. specialize (IH Ht Hl).
    change (split_ws (c :: c' :: t')) with
      (if is_space c then split_ws (c' :: t')
       else if is_space c' then [c] :: split_ws (c' :: t')
            else match split_ws (c' :: t') with
                 | w :: ws => (c :: w) :: ws
                 | [] => [[c]]
                 end).
    change (lstrip_by is_space (c :: c' :: t')) with
      (if is_space c then lstrip_by is_space (c' :: t') else c :: c' :: t').
    destruct (is_space c) eqn:Ec; [exact IH|].
    destruct (is_space c') eqn:Ec'.
    + (* a blank after [c]: the next fragment starts right after it *)
      simpl in Ht. apply andb_true_iff in Ht as [Hc' Ht'].
      rewrite Ec' in Hc'. simpl in Hc'. apply andb_true_iff in Hc' as [Hb Hn].
      apply Ascii.eqb_eq in Hb. subst c'.
      destruct t' as [|c'' t''].
      { unfold last_ok, not_space in Hl. simpl in Hl. discriminate. }
      simpl in Hn. apply negb_true_iff in Hn.
      assert (Hne := split_ws_nonempty c'' t'' Hn).
      assert (Hs : split_ws (" "%char :: c'' :: t'') = split_ws (c'' :: t'')) by reflexivity.
      assert (Hlst : lstrip_by is_space (" "%char :: c'' :: t'') = c'' :: t'').
      { simpl. now rewrite Hn. }
      rewrite Hs in *. rewrite Hlst in IH.
      destruct (split_ws (c'' :: t'')) as [|w ws]; [congruence|].
      rewrite join_cons, IH. reflexivity.
    + assert (Hne := split_ws_nonempty c' t' Ec').
      destruct (split_ws (c' :: t')) as [|w ws]; [congruence|].
      rewrite join_cons_char, IH. simpl. now rewrite Ec'.
Qed.

Lemma join_split_ws_tidy s : tidy s -> join (lit " ") (split_ws s) = s.
Proof.
  intros (Hs & Hh & Hl). rewrite join_split_ws_sparse by assumption.
  now apply lstrip_by_id.
Qed.

Lemma split_ws_words s : Forall word (split_ws s).
Proof.
  induction s as [|c t IH]; [constructor|].
  destruct (is_space c) eqn:Ec.
  { assert (E : split_ws (c :: t) = split_ws t) by (simpl; now rewrite Ec).
    now rewrite E. }
  assert (Hc : word [c]).
  { split; [discriminate|]. simpl. unfold not_space. now rewrite Ec. }
  destruct t as [|c' t'].
  { simpl. rewrite Ec. constructor; [exact Hc|constructor]. }
  change (split_ws (c :: c' :: t')) with
    (if is_space c then split_ws (c' :: t')
     else if is_space c' then [c] :: split_ws (c' :: t')
          else match split_ws (c' :: t') with
               | w :: ws => (c :: w) :: ws
               | [] => [[c]]
               end).
  rewrite Ec. destruct (is_space c'); [now constructor|].
  destruct (split_ws (c' :: t')) as [|w ws]; [constructor; [exact Hc|constructor]|].
  inversion IH as [|? ? [Hw1 Hw2] Hws]; subst. constructor; [|exact Hws].
  split; [discriminate|]. simpl. unfold not_space at 1. now rewrite Ec.
Qed.

Lemma sparse_word_app w x :
  forallb not_space w = true -> sparse x = true -> sparse (w ++ x) = true.
Proof.
  intros Hw Hx. induction w as [|c t IH]; [exact Hx|].
  simpl in Hw. apply andb_true_iff in Hw as [Hc Ht].
  simpl. unfold not_space in Hc. rewrite Hc. simpl. now apply IH.
Qed.

Lemma tidy_word w : word w -> tidy w.
Proof.
  intros [Hne Hw]. split; [|split].
  - rewrite <- (app_nil_r w). now apply sparse_word_app.
  - destruct w as [|c t]; [reflexivity|]. simpl in *.
    now apply andb_true_iff in Hw as [Hw _].
  - now apply last_ok_forallb.
Qed.

Lemma join_words_nonempty sep w ws : w <> [] -> join sep (w :: ws) <> [].
Proof. destruct w; [congruence|]. destruct ws; discriminate. Qed.

Lemma tidy_join_words ws : Forall word ws -> tidy (join (lit " ") ws).
Proof.
  induction 1 as [|w ws Hw Hws IH]; [now repeat split|].
  destruct ws as [|w' rest]; [now apply tidy_word|].
  rewrite join_cons. destruct IH as (Hs & Hh & Hl).
  assert (Hne : join (lit " ") (w' :: rest) <> []).
  { inversion Hws as [|? ? [Hw' _] _]; subst. now apply join_words_nonempty. }
  destruct (join (lit " ") (w' :: rest)) as [|j J] eqn:EJ; [congruence|].
  destruct Hw as [Hwne Hwall]. split; [|split].
  - apply sparse_word_app; [exact Hwall|].
    change (lit " " ++ j :: J) with (" "%char :: j :: J).
    change (sparse (" "%char :: j :: J))
      with ((false || (true && not_space j)) && sparse (j :: J)).
    simpl in Hh. rewrite Hh. exact Hs.
  - destruct w as [|c t]; [congruence|]. simpl in *.
    now apply andb_true_iff in Hwall as [Hc _].
  - change (w ++ lit " " ++ j :: J) with (w ++ " "%char :: j :: J).
    rewrite last_ok_app_cons, last_ok_cons_cons. exact Hl.
Qed.

(** ** [_strip_braces] *)

(** The loop of [_strip_braces] is left within [length value] iterations:
    with that much fuel the result no longer satisfies the loop condition. *)
Lemma strip_braces_loop_exit fuel value :
  length value <= fuel -> brace_wrapped (strip_braces_loop fuel value) = false.
Proof.
  revert value. induction fuel as [|fuel IH]; intros value Hlen.
  - destruct value; [reflexivity|simpl in Hlen; lia].
  - simpl. destruct (brace_wrapped value) eqn:E; [|exact E].
    apply IH.
    unfold brace_wrapped in E. apply andb_true_iff in E as [_ E].
    apply Nat.ltb_lt in E.
    pose proof (strip_by_length is_space (slice 1 1 value)) as H.
    rewrite slice_length in H. unfold strip. lia.
Qed.

Lemma strip_braces_loop_fixed fuel value :
  brace_wrapped value = false -> strip_braces_loop fuel value = value.
Proof. intros H. destruct fuel; [reflexivity|]. simpl. now rewrite H. Qed.

Lemma strip_braces_loop_tidy fuel value :
  tidy value -> tidy (strip_braces_loop fuel value).
Proof.
  revert value. induction fuel as [|fuel IH]; intros value Hv; [exact Hv|].
  simpl. destruct (brace_wrapped value); [|exact Hv].
  apply IH, tidy_strip, sparse_slice. now destruct Hv.
Qed.

Lemma strip_braces_tidy value : sparse value = true -> tidy (_strip_braces value).
Proof. intros H. unfold _strip_braces. now apply strip_braces_loop_tidy, tidy_strip. Qed.

Lemma strip_braces_exit value : brace_wrapped (_strip_braces value) = false.
Proof. unfold _strip_braces. now apply strip_braces_loop_exit. Qed.

(** A string in normal form that is not wrapped in braces is left alone. *)
Lemma strip_braces_id value :
  tidy value -> brace_wrapped value = false -> _strip_braces value = value.
Proof.
  intros Ht Hb. unfold _strip_braces. rewrite (strip_tidy _ Ht).
  now apply strip_braces_loop_fixed.
Qed.

(** ** [_clean_whitespace] *)

Lemma replace_newline_sparse s :
  sparse s = true -> replace_char "010"%char (lit " ") s = s.
Proof.
  induction s as [|c t IH]; [reflexivity|]. intros H. simpl in H.
  apply andb_true_iff in H as [Hc Ht].
  change (replace_char "010"%char (lit " ") (c :: t))
    with ((if Ascii.eqb c "010"%char then lit " " else [c])
          ++ replace_char "010"%char (lit " ") t).
  rewrite (IH Ht). destruct (Ascii.eqb c "010"%char) eqn:E; [|reflexivity].
  apply Ascii.eqb_eq in E. subst c. discriminate Hc.
Qed.

Lemma clean_tidy value : tidy (_clean_whitespace value).
Proof.
  destruct value as [v|]; [|now repeat split].
  simpl. destruct (is_empty v); [now repeat split|].
  apply strip_braces_tidy. apply tidy_join_words, split_ws_words.
Qed.

Lemma clean_not_wrapped value : brace_wrapped (_clean_whitespace value) = false.
Proof.
  destruct value as [v|]; [|reflexivity].
  simpl. destruct (is_empty v); [reflexivity|]. apply strip_braces_exit.
Qed.

(** Cleaning leaves alone every string already in the form it produces. *)
Lemma clean_fixed s :
  tidy s -> brace_wrapped s = false -> _clean_whitespace (Some s) = s.
Proof.
  intros Ht Hb. unfold _clean_whitespace.
  destruct s as [|c t] eqn:Es; [reflexivity|]. rewrite <- Es in *.
  replace (is_empty s) with false by now subst s.
  cbv zeta. rewrite replace_newline_sparse by apply Ht.
  rewrite (join_split_ws_tidy _ Ht). now apply strip_braces_id.
Qed.

(** C2. [clean] is idempotent: cleaning a value that is already the result of
    cleaning (a raw field value, or an absent one) gives it back unchanged. *)
Theorem clean_idempotent (x : option str) :
  _clean_whitespace (Some (_clean_whitespace x)) = _clean_whitespace x.
Proof. apply clean_fixed; [apply clean_tidy|apply clean_not_wrapped]. Qed.

(* ------------------------------------------------------------------------ *)
(** * [_slugify] *)
(* ------------------------------------------------------------------------ *)

Lemma is_hyphen_eq c : is_hyphen c = true -> c = "-"%char.
Proof. apply Ascii.eqb_eq. Qed.

Lemma slug_char_not_hyphen c : is_slug_char c = true -> is_hyphen c = false.
Proof.
  intros H. destruct (is_hyphen c) eqn:E; [|reflexivity].
  apply is_hyphen_eq in E. subst c. discriminate H.
Qed.

Lemma slug_char_not_space c : is_slug_char c = true -> is_space c = false.
Proof. by_cases_on_char c. Qed.

Lemma slug_char_lower c : is_slug_char c = true -> lower_char c = c.
Proof. by_cases_on_char c. Qed.

Lemma slug_char_not_brace c : is_slug_char c = true -> Ascii.eqb "{"%char c = false.
Proof. by_cases_on_char c. Qed.

(** ** What the two substitutions produce *)

Lemma re_sub_runs_in_run cls rep s :
  head_ok (fun c => negb (cls c)) s = true ->
  re_sub_runs cls rep true s = re_sub_runs cls rep false s.
Proof.
  destruct s as [|c t]; [reflexivity|]. simpl. intros H.
  apply negb_true_iff in H. now rewrite H.
Qed.

(** After a run has been replaced, the next character is outside the class,
    so the replacement characters never touch each other. *)
Lemma re_sub_runs_isolated cls in_run s :
  (forall c, cls c = false -> is_hyphen c = false) ->
  isolated is_hyphen "-"%char (re_sub_runs cls (lit "-") in_run s) = true
  /\ (in_run = true ->
      head_ok not_hyphen (re_sub_runs cls (lit "-") in_run s) = true).
Proof.
  intros Hcls. change (lit "-") with ["-"%char].
  revert in_run. induction s as [|c t IH]; intros in_run.
  - now split.
  - simpl. destruct (cls c) eqn:Ec.
    + destruct (IH true) as [Hi Hh]. destruct in_run.
      * split; [exact Hi|]. intros _. now apply Hh.
      * split; [|discriminate].
        simpl. rewrite Hi. unfold not_hyphen in Hh. now rewrite Hh.
    + destruct (IH false) as [Hi _]. specialize (Hcls c Ec). split.
      * simpl. now rewrite Hcls, Hi.
      * intros _. simpl. unfold not_hyphen. now rewrite Hcls.
Qed.

Lemma re_sub_runs_alphabet in_run s :
  forallb slug_or_hyphen (re_sub_runs not_slug_char (lit "-") in_run s) = true.
Proof.
  change (lit "-") with ["-"%char].
  revert in_run. induction s as [|c t IH]; intros in_run; [reflexivity|].
  simpl. unfold not_slug_char at 1. destruct (is_slug_char c) eqn:Ec; simpl.
  - unfold slug_or_hyphen at 1. rewrite Ec. apply IH.
  - destruct in_run; [apply IH|]. simpl. apply IH.
Qed.

(** A string whose hyphens are already single is not changed by collapsing
    the runs of hyphens. *)
Lemma re_sub_hyphens_id s :
  isolated is_hyphen "-"%char s = true ->
  re_sub_runs is_hyphen (lit "-") false s = s.
Proof.
  change (lit "-") with ["-"%char].
  induction s as [|c t IH]; [reflexivity|].
  intros H. simpl in H. apply andb_true_iff in H as [Hc Ht].
  simpl. destruct (is_hyphen c) eqn:Ec.
  - simpl in Hc. apply andb_true_iff in Hc as [Hd Hn].
    apply Ascii.eqb_eq in Hd. subst c.
    rewrite re_sub_runs_in_run by exact Hn. now rewrite (IH Ht).
  - now rewrite (IH Ht).
Qed.

Lemma forallb_app_inv {A} (f : A -> bool) a b :
  forallb f (a ++ b) = true -> forallb f a = true /\ forallb f b = true.
Proof. rewrite forallb_app. apply andb_true_iff. Qed.

Lemma forallb_strip_by f p s : forallb f s = true -> forallb f (strip_by p s) = true.
Proof.
  intros H. destruct (strip_by_segment p s) as (a & b & E). rewrite E in H.
  apply forallb_app_inv in H as [_ H]. now apply forallb_app_inv in H as [H _].
Qed.

(** The four facts the pipeline establishes are what the pattern asks. *)
Lemma matches_slug_intro s in_group :
  forallb slug_or_hyphen s = true ->
  isolated is_hyphen "-"%char s = true ->
  last_ok not_hyphen s = true ->
  (in_group = false -> s <> [] /\ head_ok not_hyphen s = true) ->
  matches_slug in_group s = true.
Proof.
  revert in_group. induction s as [|c t IH]; intros in_group Ha Hi Hl Hg.
  - destruct in_group; [reflexivity|]. now destruct (Hg eq_refl).
  - simpl in Ha, Hi. apply andb_true_iff in Ha as [Hc Ha].
    apply andb_true_iff in Hi as [Hci Hi].
    assert (Hlt : last_ok not_hyphen t = true).
    { destruct t; [reflexivity|]. now rewrite last_ok_cons_cons in Hl. }
    simpl. destruct (is_slug_char c) eqn:Es.
    + apply IH; try assumption. discriminate.
    + unfold slug_or_hyphen in Hc. rewrite Es in Hc. simpl in Hc. rewrite Hc.
      rewrite Hc in Hci. simpl in Hci. apply andb_true_iff in Hci as [_ Hn].
      assert (Hin : in_group = true).
      { destruct in_group; [reflexivity|]. destruct (Hg eq_refl) as [_ Hh].
        simpl in Hh. unfold not_hyphen in Hh. now rewrite Hc in Hh. }
      rewrite Hin. simpl. apply IH; try assumption. intros _. split; [|exact Hn].
      intros ->. unfold last_ok, not_hyphen in Hl. simpl in Hl. now rewrite Hc in Hl.
Qed.

Lemma slugify_unfold name :
  _slugify name =
    let d := strip_by is_hyphen
               (re_sub_runs is_hyphen (lit "-") false
                  (re_sub_runs not_slug_char (lit "-") false
                     (_strip_braces (lower (strip name))))) in
    if truthy d then d else lit "reference".
Proof. reflexivity. Qed.

Lemma slugify_matches name : slug_pattern (_slugify name) = true.
Proof.
  rewrite slugify_unfold. cbv zeta.
  set (b := re_sub_runs not_slug_char (lit "-") false _).
  assert (Hb : isolated is_hyphen "-"%char b = true).
  { apply re_sub_runs_isolated. intros c Hc. apply slug_char_not_hyphen.
    unfold not_slug_char in Hc. now apply negb_false_iff in Hc. }
  rewrite (re_sub_hyphens_id b Hb).
  destruct (strip_by is_hyphen b) as [|c d] eqn:Ed; [reflexivity|].
  rewrite <- Ed. replace (truthy (strip_by is_hyphen b)) with true by now rewrite Ed.
  apply matches_slug_intro.
  - apply forallb_strip_by, re_sub_runs_alphabet.
  - now apply isolated_strip_by.
  - apply (last_ok_strip is_hyphen).
  - intros _. split; [now rewrite Ed|]. apply (head_ok_strip is_hyphen).
Qed.

Lemma slugify_nonempty name : _slugify name <> [].
Proof. intros E. pose proof (slugify_matches name) as H. now rewrite E in H. Qed.

(** ** The pattern, as the language of the regular expression *)

Lemma matches_slug_language s :
  (matches_slug false s = true -> in_slug_language s)
  /\ (matches_slug true s = true ->
      exists g gs, forallb is_slug_char g = true /\ Forall slug_group gs
                   /\ s = g ++ hyphenated gs).
Proof.
  induction s as [|c t [IHf IHt]].
  - split; [discriminate|]. intros _. exists [], []. now repeat split.
  - assert (Hslug : is_slug_char c = true -> matches_slug true t = true ->
              exists g gs, slug_group g /\ Forall slug_group gs
                           /\ c :: t = g ++ hyphenated gs).
    { intros Ec Ht. destruct (IHt Ht) as (g & gs & Hg & Hgs & ->).
      exists (c :: g), gs. repeat split; try assumption; [discriminate|].
      simpl. now rewrite Ec. }
    simpl. destruct (is_slug_char c) eqn:Ec.
    + split; intros Ht; destruct (Hslug eq_refl Ht) as (g & gs & [Hne Hg] & Hgs & E);
        exists g, gs; repeat split; assumption.
    + destruct (is_hyphen c) eqn:Eh; [|split; discriminate].
      split; [discriminate|]. simpl. intros Ht.
      destruct (IHf Ht) as (g & gs & Hg & Hgs & ->).
      apply is_hyphen_eq in Eh. subst c.
      exists [], (g :: gs). split; [reflexivity|]. split; [now constructor|reflexivity].
Qed.

Lemma matches_slug_group g rest :
  forallb is_slug_char g = true ->
  matches_slug true rest = true ->
  matches_slug true (g ++ rest) = true
  /\ (g <> [] -> matches_slug false (g ++ rest) = true).
Proof.
  intros Hg Hrest. induction g as [|c g IH]; [now split|].
  simpl in Hg. apply andb_true_iff in Hg as [Hc Hg]. destruct (IH Hg) as [IH1 _].
  simpl. rewrite Hc. now split.
Qed.

Lemma matches_slug_hyphenated gs :
  Forall slug_group gs -> matches_slug true (hyphenated gs) = true.
Proof.
  induction 1 as [|g gs [Hne Hg] _ IH]; [reflexivity|].
  change (hyphenated (g :: gs)) with ("-"%char :: g ++ hyphenated gs).
  change (matches_slug true ("-"%char :: g ++ hyphenated gs))
    with (matches_slug false (g ++ hyphenated gs)).
  now apply matches_slug_group.
Qed.

(** The recogniser accepts exactly the language of the pattern. *)
Lemma slug_pattern_spec s : slug_pattern s = true <-> in_slug_language s.
Proof.
  split; [apply matches_slug_language|].
  intros (g & gs & [Hne Hg] & Hgs & ->).
  apply matches_slug_group; [assumption|now apply matches_slug_hyphenated|assumption].
Qed.

(** ** The fallback *)

Lemma In_strip_by x p s : In x (strip_by p s) -> In x s.
Proof.
  intros H. destruct (strip_by_segment p s) as (a & b & E). rewrite E.
  apply in_or_app. right. apply in_or_app. now left.
Qed.

Lemma In_slice x a b s : In x (slice a b s) -> In x s.
Proof.
  intros H. destruct (slice_segment a b s) as (y & z & E). rewrite E.
  apply in_or_app. right. apply in_or_app. now left.
Qed.

Lemma In_strip_braces_loop x fuel value :
  In x (strip_braces_loop fuel value) -> In x value.
Proof.
  revert value. induction fuel as [|fuel IH]; intros value H; [exact H|].
  simpl in H. destruct (brace_wrapped value); [|exact H].
  apply IH in H. apply (In_strip_by x is_space) in H. now apply In_slice in H.
Qed.

Lemma In_strip_braces x value : In x (_strip_braces value) -> In x value.
Proof.
  intros H. apply In_strip_braces_loop in H. now apply (In_strip_by x is_space) in H.
Qed.

(** A substitution only adds characters of the replacement. *)
Lemma In_re_sub_runs x cls rep in_run s :
  In x (re_sub_runs cls rep in_run s) -> In x rep \/ In x s.
Proof.
  revert in_run. induction s as [|c t IH]; intros in_run H; [now right|].
  simpl in H. destruct (cls c).
  - apply in_app_or in H as [H|H].
    + destruct in_run; [destruct H|now left].
    + destruct (IH _ H) as [H'|H']; [now left|right; now right].
  - destruct H as [->|H]; [right; now left|].
    destruct (IH _ H) as [H'|H']; [now left|right; now right].
Qed.

Lemma matches_slug_head c t : matches_slug false (c :: t) = true -> is_slug_char c = true.
Proof. simpl. destruct (is_slug_char c); [reflexivity|]. now destruct (is_hyphen c). Qed.

(** A slug other than the fallback starts with an alphanumeric character of
    the lowercased input. *)
Lemma slugify_fallback name :
  existsb is_slug_char (lower name) = true \/ _slugify name = lit "reference".
Proof.
  pose proof (slugify_matches name) as Hm. rewrite slugify_unfold in *. cbv zeta in *.
  set (d := strip_by is_hyphen _) in *.
  destruct d as [|x d'] eqn:Ed; [now right|]. left.
  change (truthy (x :: d')) with true in Hm. cbv iota in Hm.
  apply matches_slug_head in Hm.
  assert (Hx : In x (x :: d')) by now left. rewrite <- Ed in Hx. subst d.
  apply In_strip_by in Hx.
  apply In_re_sub_runs in Hx as [Hx|Hx].
  { destruct Hx as [<-|[]]. discriminate Hm. }
  apply In_re_sub_runs in Hx as [Hx|Hx].
  { destruct Hx as [<-|[]]. discriminate Hm. }
  apply In_strip_braces in Hx. unfold lower in Hx. apply in_map_iff in Hx as (y & <- & Hy).
  apply (In_strip_by y is_space) in Hy.
  apply existsb_exists. exists (lower_char y). split; [|exact Hm].
  unfold lower. now apply in_map.
Qed.

(** C4. [slugify] returns, for every input, a non-empty string of the
    language of [[a-z0-9]+(-[a-z0-9]+)*] (groups of lowercase letters and
    digits separated by single hyphens, none at either end); the result is
    the fallback ["reference"] whenever the lowercased input has no character
    of [[a-z0-9]], as for ["!!!"]. *)
Theorem slugify_total_pattern (name : str) :
  _slugify name <> []
  /\ slug_pattern (_slugify name) = true
  /\ in_slug_language (_slugify name)
  /\ (existsb is_slug_char (lower name) = true \/ _slugify name = lit "reference")
  /\ _slugify (lit "!!!") = lit "reference".
Proof.
  split; [apply slugify_nonempty|]. split; [apply slugify_matches|].
  split; [apply slug_pattern_spec, slugify_matches|].
  split; [apply slugify_fallback|reflexivity].
Qed.

(** ** Slugs are fixed points *)

Lemma matches_slug_alphabet in_group s :
  matches_slug in_group s = true -> forallb slug_or_hyphen s = true.
Proof.
  revert in_group. induction s as [|c t IH]; intros in_group H; [reflexivity|].
  simpl in H. simpl. unfold slug_or_hyphen at 1.
  destruct (is_slug_char c); [now apply IH in H|].
  destruct (is_hyphen c); [|discriminate].
  apply andb_true_iff in H as [_ H]. now apply IH in H.
Qed.

Lemma matches_slug_last in_group s :
  matches_slug in_group s = true -> last_ok is_slug_char s = true.
Proof.
  revert in_group. induction s as [|c t IH]; intros in_group H; [reflexivity|].
  destruct t as [|c' t'].
  - simpl in H. unfold last_ok. simpl. destruct (is_slug_char c); [reflexivity|].
    destruct (is_hyphen c); [|discriminate]. now apply andb_true_iff in H as [_ H].
  - rewrite last_ok_cons_cons.
    change (matches_slug in_group (c :: c' :: t')) with
      (if is_slug_char c then matches_slug true (c' :: t')
       else if is_hyphen c then in_group && matches_slug false (c' :: t')
            else false) in H.
    destruct (is_slug_char c); [now apply IH in H|].
    destruct (is_hyphen c); [|discriminate].
    apply andb_true_iff in H as [_ H]. now apply IH in H.
Qed.

Lemma head_ok_impl (q q' : ascii -> bool) s :
  (forall c, q c = true -> q' c = true) -> head_ok q s = true -> head_ok q' s = true.
Proof. intros Hq. destruct s; [reflexivity|]. simpl. apply Hq. Qed.

Lemma last_ok_impl (q q' : ascii -> bool) s :
  (forall c, q c = true -> q' c = true) -> last_ok q s = true -> last_ok q' s = true.
Proof. intros Hq. unfold last_ok. now apply head_ok_impl. Qed.

Lemma re_sub_runs_slug cls s in_group :
  (forall c, is_slug_char c = true -> cls c = false) ->
  (forall c, is_hyphen c = true -> cls c = true) ->
  matches_slug in_group s = true ->
  re_sub_runs cls (lit "-") (negb in_group) s = s.
Proof.
  intros Hs Hh. change (lit "-") with ["-"%char].
  revert in_group. induction s as [|c t IH]; intros in_group H; [reflexivity|].
  simpl in H. simpl. destruct (is_slug_char c) eqn:Ec.
  - rewrite (Hs c Ec). f_equal. now apply (IH true).
  - destruct (is_hyphen c) eqn:Eh; [|discriminate].
    apply andb_true_iff in H as [-> H]. rewrite (Hh c Eh). simpl.
    apply is_hyphen_eq in Eh. subst c. f_equal. now apply (IH false).
Qed.

Lemma lower_slug s : forallb slug_or_hyphen s = true -> lower s = s.
Proof.
  induction s as [|c t IH]; [reflexivity|]. intros H. simpl in H.
  apply andb_true_iff in H as [Hc Ht]. simpl. rewrite (IH Ht). f_equal.
  clear -Hc. revert Hc. by_cases_on_char c.
Qed.

(** [_slugify] leaves every string of the pattern unchanged. *)
Lemma slugify_fixed s : slug_pattern s = true -> _slugify s = s.
Proof.
  intros H. unfold slug_pattern in H.
  destruct s as [|c0 t0] eqn:Es; [discriminate|]. rewrite <- Es in *.
  assert (Hhead : head_ok is_slug_char s = true).
  { subst s. simpl. now apply matches_slug_head in H. }
  pose proof (matches_slug_last _ _ H) as Hlast.
  assert (Hstrip : strip s = s).
  { apply strip_by_id.
    - revert Hhead. apply head_ok_impl. intros c Hc. now rewrite slug_char_not_space.
    - revert Hlast. apply last_ok_impl. intros c Hc. now rewrite slug_char_not_space. }
  assert (Hbr : _strip_braces s = s).
  { unfold _strip_braces. rewrite Hstrip. apply strip_braces_loop_fixed.
    unfold brace_wrapped. subst s. simpl in Hhead.
    change (startswith (lit "{") (c0 :: t0)) with (Ascii.eqb "{"%char c0 && true).
    now rewrite (slug_char_not_brace _ Hhead). }
  assert (Hsub : forall cls,
             (forall c, is_slug_char c = true -> cls c = false) ->
             (forall c, is_hyphen c = true -> cls c = true) ->
             re_sub_runs cls (lit "-") false s = s).
  { intros cls Hs Hh. rewrite <- re_sub_runs_in_run.
    - now apply (re_sub_runs_slug cls s false).
    - revert Hhead. apply head_ok_impl. intros c Hc. now rewrite Hs. }
  rewrite slugify_unfold. cbv zeta.
  rewrite Hstrip, (lower_slug s (matches_slug_alphabet _ _ H)), Hbr.
  rewrite (Hsub not_slug_char).
  - rewrite (Hsub is_hyphen); [|apply slug_char_not_hyphen|trivial].
    rewrite strip_by_id.
    + now subst s.
    + revert Hhead. apply head_ok_impl. intros c Hc. now rewrite slug_char_not_hyphen.
    + revert Hlast. apply last_ok_impl. intros c Hc. now rewrite slug_char_not_hyphen.
  - intros c Hc. unfold not_slug_char. now rewrite Hc.
  - intros c Hc. unfold not_slug_char. destruct (is_slug_char c) eqn:E; [|reflexivity].
    apply slug_char_not_hyphen in E. congruence.
Qed.

Lemma slugify_twice x : _slugify (_slugify x) = _slugify x.
Proof. apply slugify_fixed, slugify_matches. Qed.

(** C9. [slugify] is idempotent, so the file name of a record without a
    citation key, obtained by slugifying the slug of its title, is the slug of
    the title followed by [".tree"]. *)
Theorem slugify_idempotent (x : str) (e : entry) :
  _slugify (_slugify x) = _slugify x
  /\ (match get (lit "ID") e with Some id => truthy id | None => false end = false ->
      filename e = _slugify (get_default (lit "title") (lit "reference") e) ++ lit ".tree").
Proof.
  split; [apply slugify_twice|].
  intros H. unfold filename, citekey.
  destruct (get (lit "ID") e) as [id|]; [rewrite H|]; now rewrite slugify_twice.
Qed.

Lemma slugify_idempotent_witness :
  _slugify (_slugify (lit "Graph Theory, 2nd ed.")) = _slugify (lit "Graph Theory, 2nd ed.")
  /\ filename [(lit "title", lit "Graph Theory, 2nd ed.")] = lit "graph-theory-2nd-ed.tree".
Proof.
  destruct (slugify_idempotent (lit "Graph Theory, 2nd ed.")
              [(lit "title", lit "Graph Theory, 2nd ed.")]) as [H1 H2].
  split; [exact H1|]. apply H2. reflexivity.
Defined.

(* ------------------------------------------------------------------------ *)
(** * [_parse_month] *)
(* ------------------------------------------------------------------------ *)

Lemma int_digits_decimal s acc :
  forallb is_decimal s = true ->
  int_digits acc false s
  = Some (fold_left (fun acc c => (10 * acc + (Z.of_N (code c) - 48))%Z) s acc).
Proof.
  revert acc. induction s as [|c t IH]; intros acc H; [reflexivity|].
  simpl in H. apply andb_true_iff in H as [Hc Ht].
  simpl. rewrite Hc.
  replace (Ascii.eqb c "_"%char) with false; [now apply IH|].
  clear -Hc. revert Hc. by_cases_on_char c.
Qed.

Lemma decimal_not_int_space c : is_decimal c = true -> negb (int_space c) = true.
Proof. by_cases_on_char c. Qed.

Lemma decimal_not_sign c :
  is_decimal c = true -> Ascii.eqb c "-"%char = false /\ Ascii.eqb c "+"%char = false.
Proof. by_cases_on_char c; now split. Qed.

Lemma forallb_impl {A} (f g : A -> bool) l :
  (forall x, f x = true -> g x = true) -> forallb f l = true -> forallb g l = true.
Proof.
  intros Hfg. induction l as [|x l IH]; [reflexivity|]. simpl. intros H.
  apply andb_true_iff in H as [Hx Hl]. now rewrite (Hfg x Hx), (IH Hl).
Qed.

Lemma digit_count_decimal s : forallb is_decimal s = true -> digit_count s = length s.
Proof.
  unfold digit_count. induction s as [|c t IH]; [reflexivity|]. intros H.
  cbn [forallb] in H. apply andb_true_iff in H as [Hc Ht].
  cbn [List.filter]. rewrite Hc. cbn [length]. now rewrite IH.
Qed.

(** [int] reads a non-empty string of decimal digits, no more of them than
    it admits, as its value. *)
Lemma py_int_decimal s :
  all_decimal s = true -> length s <= int_max_str_digits ->
  py_int s = Some (decimal_value s).
Proof.
  intros H Hlen. unfold all_decimal in H. apply andb_true_iff in H as [Hne Hd].
  unfold py_int. rewrite strip_by_id.
  - assert (Hlimit : (int_max_str_digits <? digit_count s) = false).
    { apply Nat.ltb_ge. now rewrite digit_count_decimal. }
    pose proof (int_digits_decimal s 0%Z Hd) as Hint. fold (decimal_value s) in Hint.
    destruct s as [|c t]; [discriminate|].
    assert (Hc : is_decimal c = true).
    { cbn [forallb] in Hd. now apply andb_true_iff in Hd as [Hc _]. }
    destruct (decimal_not_sign c Hc) as [-> ->]. now rewrite Hc, Hint, Hlimit.
  - apply head_ok_forallb. revert Hd. apply forallb_impl, decimal_not_int_space.
  - apply last_ok_forallb. revert Hd. apply forallb_impl, decimal_not_int_space.
Qed.

Lemma lower_char_superscript c :
  is_superscript_digit (lower_char c) = is_superscript_digit c.
Proof. by_cases_on_char c. Qed.

Lemma digit_decimal c :
  is_digit c = true -> is_superscript_digit c = false -> is_decimal c = true.
Proof. by_cases_on_char c. Qed.

Lemma decimal_digit c : is_decimal c = true -> is_digit c = true.
Proof. by_cases_on_char c. Qed.

Lemma isdigit_all_decimal s :
  existsb is_superscript_digit s = false -> isdigit s = all_decimal s.
Proof.
  intros H. unfold isdigit, all_decimal. f_equal.
  induction s as [|c t IH]; [reflexivity|]. simpl in *.
  apply orb_false_iff in H as [Hc Ht]. rewrite (IH Ht).
  destruct (is_digit c) eqn:E.
  - now rewrite (digit_decimal c E Hc).
  - destruct (is_decimal c) eqn:E'; [|reflexivity].
    apply decimal_digit in E'. congruence.
Qed.

Lemma existsb_segment {A} (f : A -> bool) a m b :
  existsb f (a ++ m ++ b) = false -> existsb f m = false.
Proof.
  rewrite !existsb_app. intros H. apply orb_false_iff in H as [_ H].
  now apply orb_false_iff in H as [H _].
Qed.

Lemma no_superscript_lower_strip m :
  existsb is_superscript_digit m = false ->
  existsb is_superscript_digit (lower (strip m)) = false.
Proof.
  intros H. destruct (strip_by_segment is_space m) as (a & b & E).
  rewrite E in H. apply existsb_segment in H. fold (strip m) in H.
  induction (strip m) as [|c t IH]; [reflexivity|]. simpl in *.
  apply orb_false_iff in H as [Hc Ht]. now rewrite lower_char_superscript, Hc, IH.
Qed.

(** The [sept] entry of [name_map] is never reached: a key has three
    characters at most. *)
Lemma name_map_prefix key :
  length key <= 3 -> get_default key 1%Z name_map = get_default key 1%Z month_prefixes.
Proof.
  intros H. unfold get_default, name_map, month_prefixes.
  assert (Hs : str_eqb (lit "sept") key = false).
  { destruct (str_eqb (lit "sept") key) eqn:E; [|reflexivity].
    apply str_eqb_eq in E. subst key. simpl in H. lia. }
  cbn [get]. rewrite Hs.
  repeat (destruct (str_eqb _ key); [reflexivity|]). reflexivity.
Qed.

Lemma all_decimal_isdigit s : all_decimal s = true -> isdigit s = true.
Proof.
  unfold all_decimal, isdigit. intros H. apply andb_true_iff in H as [-> H].
  cbn [andb]. revert H. apply forallb_impl, decimal_digit.
Qed.

(** A string that is not unreadable is read by [int] when [isdigit] accepts
    it, and is no number for either when [isdigit] rejects it. *)
Lemma readable_number s :
  unreadable_number s = false ->
  if isdigit s
  then all_decimal s = true /\ length s <= int_max_str_digits
  else all_decimal s = false.
Proof.
  unfold unreadable_number. intros H. destruct (isdigit s) eqn:Ed.
  - cbn [andb] in H. apply orb_false_iff in H as [Hs Hl].
    apply Nat.ltb_ge in Hl. split; [|exact Hl].
    now rewrite <- (isdigit_all_decimal s Hs).
  - destruct (all_decimal s) eqn:Ea; [|reflexivity].
    apply all_decimal_isdigit in Ea. congruence.
Qed.

Lemma parse_month_returns_digits m :
  unreadable_number (lower (strip m)) = false ->
  _parse_month (Some m) = Ok (parse_month_digits (Some m)).
Proof.
  intros H. unfold _parse_month, parse_month_digits.
  destruct m as [|c0 t0] eqn:Em; [reflexivity|]. rewrite <- Em in *.
  replace (is_empty m) with false by now subst m.
  set (month := lower (strip m)) in *.
  assert (Hk : length (take 3 month) <= 3) by (rewrite length_take; lia).
  apply readable_number in H. destruct (isdigit month).
  - destruct H as [Ed Hlen]. rewrite Ed, (py_int_decimal _ Ed Hlen). cbn [andb].
    destruct ((1 <=? decimal_value month)%Z && (decimal_value month <=? 12)%Z);
      [reflexivity|]. now rewrite name_map_prefix.
  - rewrite H. cbn [andb]. now rewrite name_map_prefix.
Qed.

(** C7, as the specification words it, fails: a numeric string of more than
    two digits is read as a number too, so ["012"] is December, not the
    default. *)
Lemma parse_month_spec_fails :
  _parse_month (Some (lit "012")) = Ok 12%Z
  /\ parse_month_spec (Some (lit "012")) = 1%Z
  /\ ~ (forall raw, _parse_month raw = Ok (parse_month_spec raw)).
Proof.
  split; [reflexivity|]. split; [reflexivity|].
  intros H. specialize (H (Some (lit "012"))). vm_compute in H. discriminate H.
Qed.

(** C7, amended. [parse_month] maps a string of decimal digits, as many as
    [int] reads (leading zeros count, as in ["012"]), whose value lies in
    1..12 to that value, and any other input to the month whose three-letter
    prefix is the first three letters of the lowercased, trimmed input
    (["September"] and ["Sept"] give 9); unrecognised or absent input gives
    1. Left aside are the inputs that, trimmed, are all digits for
    [isdigit] and no number for [int]. *)
Theorem parse_month_amended (raw : option str) :
  match raw with
  | Some m => unreadable_number (lower (strip m)) = false
  | None => True
  end ->
  _parse_month raw = Ok (parse_month_digits raw)
  /\ _parse_month (Some (lit "September")) = Ok 9%Z
  /\ _parse_month (Some (lit "Sept")) = Ok 9%Z.
Proof.
  intros H. split; [|split; reflexivity].
  destruct raw as [m|]; [now apply parse_month_returns_digits|reflexivity].
Qed.

Lemma parse_month_amended_witness :
  (_parse_month (Some (lit " 007 ")) = Ok (parse_month_digits (Some (lit " 007 ")))
   /\ _parse_month (Some (lit "September")) = Ok 9%Z
   /\ _parse_month (Some (lit "Sept")) = Ok 9%Z)
  /\ _parse_month (Some (lit "Dec" ++ [ascii_of_N 178])) = Ok 12%Z.
Proof.
  split.
  - apply (parse_month_amended (Some (lit " 007 "))). reflexivity.
  - destruct (parse_month_amended (Some (lit "Dec" ++ [ascii_of_N 178]))) as [H _];
      [reflexivity|exact H].
Defined.

(* ------------------------------------------------------------------------ *)
(** * [_format_date] *)
(* ------------------------------------------------------------------------ *)

Lemma format_date_none e :
  _format_date e = Ok None <-> _clean_whitespace (get (lit "year") e) = [].
Proof.
  unfold _format_date. destruct (_clean_whitespace (get (lit "year") e)) as [|c t] eqn:E.
  - now split.
  - cbn [is_empty]. split; [|discriminate].
    destruct (_parse_month _); [|discriminate]. cbn [res_bind].
    destruct (py_int (c :: t)); discriminate.
Qed.

Lemma format_date_some e y m :
  _clean_whitespace (get (lit "year") e) <> [] ->
  py_int (_clean_whitespace (get (lit "year") e)) = Some y ->
  _parse_month (Some (_clean_whitespace (get (lit "month") e))) = Ok m ->
  _format_date e
  = Ok (Some (format_d0 4 y ++ lit "-" ++ format_d0 2 m ++ lit "-"
              ++ format_d0 2 (day_of e))).
Proof.
  intros Hne Hy Hm. unfold _format_date, day_of.
  destruct (_clean_whitespace (get (lit "year") e)) as [|c t] eqn:E; [congruence|].
  cbn [is_empty]. rewrite Hm. cbn [res_bind]. rewrite Hy.
  destruct (_clean_whitespace (get (lit "day") e)) as [|c' t']; [|reflexivity].
  cbn [truthy is_empty negb]. now destruct (py_int []).
Qed.

(** What [format_date] returns when the year is an integer literal. *)
Lemma format_date_returns e y :
  _clean_whitespace (get (lit "year") e) <> [] ->
  py_int (_clean_whitespace (get (lit "year") e)) = Some y ->
  unreadable_number (lower (strip (_clean_whitespace (get (lit "month") e)))) = false ->
  _format_date e
  = Ok (Some (format_d0 4 y ++ lit "-"
              ++ format_d0 2 (parse_month_digits (Some (_clean_whitespace (get (lit "month") e))))
              ++ lit "-" ++ format_d0 2 (day_of e))).
Proof.
  intros Hne Hy Hm. apply format_date_some; [exact Hne|exact Hy|].
  now apply parse_month_returns_digits.
Qed.

Lemma day_of_range e : (1 <= day_of e <= 31)%Z.
Proof. unfold day_of. lia. Qed.

Lemma format_date_truthy e d : _format_date e = Ok (Some d) -> truthy d = true.
Proof.
  unfold _format_date. destruct (is_empty _); [discriminate|].
  destruct (_parse_month _); [|discriminate]. cbn [res_bind].
  destruct (py_int _); [|discriminate]. intros [= <-].
  unfold format_d0 at 1. destruct (_ <? 0)%Z; [reflexivity|].
  unfold zfill. destruct (repeat _ _); [|reflexivity].
  destruct (digits_of _); reflexivity.
Qed.

(** C1. [format_date] raises on a record whose cleaned year is not an integer
    literal: nothing guards [int(year)], unlike the day and the month; and
    [parse_month] raises on a superscript digit, which [isdigit] accepts and
    [int] rejects. *)
Theorem format_date_raises :
  _format_date [(lit "year", lit "abc")] = Raise ValueError
  /\ _clean_whitespace (Some (lit "abc")) <> []
  /\ _parse_month (Some [ascii_of_N 178]) = Raise ValueError.
Proof. split; [reflexivity|]. split; [discriminate|reflexivity]. Qed.

(** C5. On a record whose year is present and not empty after cleaning,
    [format_date] does not return a date when the year is not an integer
    literal: it raises. *)
Theorem format_date_year_not_integer :
  let e := [(lit "year", lit "in press"); (lit "month", lit "Sept");
            (lit "day", lit "31")] in
  _clean_whitespace (get (lit "year") e) = lit "in press"
  /\ _format_date e = Raise ValueError.
Proof. split; reflexivity. Qed.

(** The examples of the specification. *)
Lemma format_date_examples :
  _format_date [(lit "year", lit "2021"); (lit "month", lit "Sept");
                (lit "day", lit "31")] = Ok (Some (lit "2021-09-31"))
  /\ _format_date [(lit "year", lit "2021")] = Ok (Some (lit "2021-01-01"))
  /\ _format_date [] = Ok None
  /\ _format_date [(lit "year", lit "12345"); (lit "day", lit "99")]
     = Ok (Some (lit "12345-01-31"))
  /\ _format_date [(lit "year", lit "{ 987 }"); (lit "month", lit "3"); (lit "day", lit "x")]
     = Ok (Some (lit "0987-03-01")).
Proof. repeat split; reflexivity. Qed.

(* ------------------------------------------------------------------------ *)
(** * The metadata projector *)
(* ------------------------------------------------------------------------ *)

Lemma escape_percent_escaped prev value :
  percent_escaped prev (_escape_meta_value value) = true.
Proof.
  revert prev. induction value as [|c t IH]; intros prev; [reflexivity|].
  unfold _escape_meta_value in *.
  change (replace_char "%"%char (lit "\%") (c :: t))
    with ((if Ascii.eqb c "%"%char then ["\"; "%"]%char else [c])
          ++ replace_char "%"%char (lit "\%") t).
  destruct (Ascii.eqb c "%"%char) eqn:E.
  - change (percent_escaped prev (["\"; "%"]%char ++ replace_char "%"%char (lit "\%") t))
      with (true && (true && percent_escaped false (replace_char "%"%char (lit "\%") t))).
    now rewrite IH.
  - change (percent_escaped prev ([c] ++ replace_char "%"%char (lit "\%") t))
      with ((if Ascii.eqb c "%"%char then prev else true)
            && percent_escaped (Ascii.eqb c "\"%char) (replace_char "%"%char (lit "\%") t)).
    now rewrite E, IH.
Qed.

Lemma startswith_app p s : startswith p (p ++ s) = true.
Proof. induction p as [|c p IH]; [reflexivity|]. simpl. now rewrite Ascii.eqb_refl. Qed.

Lemma endswith_app p s : endswith p (s ++ p) = true.
Proof. unfold endswith. rewrite rev_app_distr. apply startswith_app. Qed.

(** A [\url{...}] wrapper is removed and what it holds is trimmed. *)
Lemma strip_url_wrapped inner :
  _strip_url_command (lit "\url{" ++ inner ++ lit "}") = strip inner.
Proof.
  unfold _strip_url_command.
  assert (Hs : strip (lit "\url{" ++ inner ++ lit "}") = lit "\url{" ++ inner ++ lit "}").
  { apply strip_by_id; [reflexivity|].
    change (lit "}") with ("}"%char :: []).
    now rewrite app_assoc, last_ok_app_cons. }
  cbv zeta. rewrite Hs, startswith_app.
  rewrite (app_assoc (lit "\url{") inner (lit "}")), endswith_app.
  cbn [andb]. f_equal. unfold slice.
  rewrite <- app_assoc, drop_app_length'; [|reflexivity].
  rewrite !length_app. cbn [length lit list_ascii_of_string].
  replace (5 + (length inner + 1) - 1 - 5) with (length inner) by lia.
  now rewrite take_app_length.
Qed.

Lemma strip_url_plain value :
  startswith (lit "\url{") (strip value) && endswith (lit "}") (strip value) = false ->
  _strip_url_command value = strip value.
Proof. intros H. unfold _strip_url_command. cbv zeta. now rewrite H. Qed.

(** The test [meta_key == "external"] holds exactly for the renamed fields. *)
Lemma meta_key_external field :
  str_eqb (if mem (lower field) URL_FIELDS then lit "external" else field)
          (lit "external")
  = url_bearing field.
Proof.
  unfold url_bearing. destruct (mem (lower field) URL_FIELDS) eqn:E; [reflexivity|].
  destruct (str_eqb field (lit "external")) eqn:E'; [|reflexivity].
  apply str_eqb_eq in E'. subst field. discriminate E.
Qed.

Lemma meta_pairs_spec e : _meta_pairs e = map project (List.filter survives e).
Proof.
  induction e as [|[field value] rest IH]; [reflexivity|].
  cbn [_meta_pairs List.filter]. unfold survives at 1. cbn [fst snd].
  destruct (mem field skip); cbn [negb andb]; [exact IH|].
  destruct (truthy (_clean_whitespace (Some value))); [|exact IH].
  cbn [map]. rewrite <- IH. f_equal.
  unfold project. cbn [fst snd]. rewrite meta_key_external.
  unfold url_bearing. now destruct (mem (lower field) URL_FIELDS).
Qed.

(** C8. The entries of the projector are, in the order of the record, those
    of the fields that survive (name none of the five lowercase core keys,
    cleaned value not empty); the key is [external] when the field name is
    [url], [howpublished] or [external] up to case, else the field name; a
    renamed value loses a [\url{...}] wrapper, what it held being trimmed;
    and every percent sign of an emitted value follows a backslash. *)
Theorem meta_pairs_projection (e : entry) (inner : str) :
  _meta_pairs e = map project (List.filter survives e)
  /\ Forall (fun kv => percent_escaped false (snd kv) = true) (_meta_pairs e)
  /\ _strip_url_command (lit "\url{" ++ inner ++ lit "}") = strip inner
  /\ url_bearing (lit "URL") = true
  /\ _meta_pairs [(lit "URL", lit "\url{ http://a.b/c%20d }"); (lit "Title", lit "x");
                  (lit "title", lit "y"); (lit "note", lit " ")]
     = [(lit "external", lit "http://a.b/c\%20d"); (lit "Title", lit "x")].
Proof.
  split; [apply meta_pairs_spec|]. split.
  - rewrite meta_pairs_spec. apply List.Forall_forall. intros kv Hkv.
    apply in_map_iff in Hkv as ([f v] & <- & _). unfold project. cbn [fst snd].
    destruct (url_bearing f); apply escape_percent_escaped.
  - split; [apply strip_url_wrapped|]. split; reflexivity.
Qed.

(* ------------------------------------------------------------------------ *)
(** * The document synthesizer *)
(* ------------------------------------------------------------------------ *)

Lemma append_meta_spec lines pairs :
  append_meta lines pairs = lines ++ map meta_line (List.filter has_value pairs).
Proof.
  revert lines. induction pairs as [|[k v] rest IH]; intros lines.
  - simpl. now rewrite app_nil_r.
  - cbn [append_meta List.filter]. unfold has_value at 1. cbn [snd].
    destruct (truthy v); [|apply IH].
    rewrite IH, <- app_assoc. reflexivity.
Qed.

Lemma truthy_nonempty (s : str) : truthy s = true <-> s <> [].
Proof.
  destruct s; simpl; split; intros H; try discriminate; try reflexivity.
  now contradiction H.
Qed.

Lemma format_authors_truthy field a : _format_authors field = Some a -> truthy a = true.
Proof.
  unfold _format_authors. destruct (is_empty _); [discriminate|].
  set (parts := split _ _). clearbody parts.
  destruct (map strip (List.filter _ parts)) as [|x xs] eqn:E; [discriminate|].
  intros H. assert (Ha : a = join (lit ", ") (x :: xs)) by congruence.
  rewrite Ha. apply truthy_nonempty, join_words_nonempty.
  assert (Hx : In x (x :: xs)) by now left.
  rewrite <- E in Hx. apply in_map_iff in Hx as (part & <- & Hin).
  apply filter_In in Hin as [_ Hin]. now apply truthy_nonempty.
Qed.

Lemma build_lines_shape e d :
  _format_date e = Ok d -> build_lines e = Ok (content_lines e d ++ [[]]).
Proof.
  intros Hd. unfold build_lines, content_lines. rewrite Hd. cbn [res_bind].
  rewrite append_meta_spec. fold (title_of e).
  assert (Ha : match _format_authors (get (lit "author") e) with
               | Some a => if truthy a
                           then [title_line (title_of e); taxon_line] ++ [author_line a]
                           else [title_line (title_of e); taxon_line]
               | None => [title_line (title_of e); taxon_line]
               end
               = [title_line (title_of e); taxon_line]
                 ++ opt_line author_line (_format_authors (get (lit "author") e))).
  { destruct (_format_authors _) as [a|] eqn:E; [|reflexivity].
    now rewrite (format_authors_truthy _ _ E). }
  rewrite Ha. clear Ha.
  set (head := [title_line (title_of e); taxon_line] ++ _).
  assert (Hdl : match d with
                | Some x => if truthy x then head ++ [date_line x] else head
                | None => head
                end = head ++ opt_line date_line d).
  { destruct d as [x|]; [|now rewrite app_nil_r].
    now rewrite (format_date_truthy _ _ Hd). }
  rewrite Hdl. subst head. now rewrite <- !app_assoc.
Qed.

Lemma join_snoc_empty sep xs : xs <> [] -> join sep (xs ++ [[]]) = join sep xs ++ sep.
Proof.
  induction xs as [|x xs IH]; [congruence|]. intros _.
  destruct xs as [|y ys].
  - simpl. now rewrite app_nil_r.
  - change ((x :: y :: ys) ++ [[]]) with (x :: (y :: ys) ++ [[]]).
    change (join sep (x :: (y :: ys) ++ [[]]))
      with (x ++ sep ++ join sep ((y :: ys) ++ [[]])).
    rewrite IH by discriminate. rewrite join_cons, <- !app_assoc. reflexivity.
Qed.

Lemma build_tree_content_shape e d :
  _format_date e = Ok d ->
  build_tree_content e = Ok (join newline (content_lines e d) ++ newline).
Proof.
  intros Hd. unfold build_tree_content. rewrite (build_lines_shape e d Hd).
  cbn [res_bind]. now rewrite join_snoc_empty.
Qed.

Lemma filter_map_none {A} (P : str -> bool) (f : A -> str) l :
  (forall x, P (f x) = false) -> List.filter P (map f l) = [].
Proof.
  intros H. induction l as [|x l IH]; [reflexivity|]. simpl. now rewrite H.
Qed.

Lemma filter_opt_none (P : str -> bool) (f : str -> str) o :
  (forall x, P (f x) = false) -> List.filter P (opt_line f o) = [].
Proof. intros H. destruct o; [|reflexivity]. simpl. now rewrite H. Qed.

Lemma content_lines_nonempty e d : Forall (fun l => l <> []) (content_lines e d).
Proof.
  unfold content_lines. repeat apply Forall_app_2.
  - repeat constructor; discriminate.
  - destruct (_format_authors _); repeat constructor. discriminate.
  - destruct d; repeat constructor. discriminate.
  - apply List.Forall_forall. intros l Hl. apply in_map_iff in Hl as (kv & <- & _).
    discriminate.
Qed.

Lemma content_lines_one_title e d :
  length (List.filter is_title_line (content_lines e d)) = 1
  /\ length (List.filter is_taxon_line (content_lines e d)) = 1.
Proof.
  unfold content_lines. rewrite !List.filter_app.
  rewrite !(filter_opt_none is_title_line), !(filter_opt_none is_taxon_line),
    (filter_map_none is_title_line), (filter_map_none is_taxon_line);
    try (intros; reflexivity).
  split; reflexivity.
Qed.

(** C6. Whenever [format_date] yields its value [d] for a record, the body
    built for it is the content lines joined by line breaks and closed by one
    line break, hence one empty line after the last content line, no content
    line being empty. The content lines are: one title line, of the cleaned
    title or of ["Untitled"]; one taxonomy line ["Reference"]; an author line
    exactly when [format_authors] is not [None]; a date line exactly when [d]
    is not [None]; and one metadata line for each entry of the projector with
    a value, in the order of the fields of the record. *)
Theorem build_tree_content_structure (e : entry) (d : option str) :
  _format_date e = Ok d ->
  build_tree_content e = Ok (join newline (content_lines e d) ++ newline)
  /\ build_lines e = Ok (content_lines e d ++ [[]])
  /\ content_lines e d
     = [title_line (title_of e); lit "\taxon{Reference}"]
       ++ opt_line author_line (_format_authors (get (lit "author") e))
       ++ opt_line date_line d
       ++ map meta_line (List.filter has_value (map project (List.filter survives e)))
  /\ (title_of e = _clean_whitespace (get (lit "title") e)
      \/ _clean_whitespace (get (lit "title") e) = [] /\ title_of e = lit "Untitled")
  /\ Forall (fun l => l <> []) (content_lines e d)
  /\ length (List.filter is_title_line (content_lines e d)) = 1
  /\ length (List.filter is_taxon_line (content_lines e d)) = 1.
Proof.
  intros Hd. split; [now apply build_tree_content_shape|].
  split; [now apply build_lines_shape|]. split.
  { unfold content_lines. now rewrite meta_pairs_spec. }
  split.
  { unfold title_of. destruct (_clean_whitespace (get (lit "title") e)); [right|left]; easy. }
  split; [apply content_lines_nonempty|apply content_lines_one_title].
Qed.

Lemma build_tree_content_structure_witness :
  build_tree_content
    [(lit "title", lit "{A  Title}"); (lit "author", lit "Jane Doe and John Smith");
     (lit "year", lit "2021"); (lit "url", lit "\url{http://x.y}")]
  = Ok (lit "\title{A Title}
\taxon{Reference}
\author/literal{Jane Doe, John Smith}
\date{2021-01-01}
\meta{external}{http://x.y}
").
Proof.
  destruct (build_tree_content_structure
              [(lit "title", lit "{A  Title}"); (lit "author", lit "Jane Doe and John Smith");
               (lit "year", lit "2021"); (lit "url", lit "\url{http://x.y}")]
              (Some (lit "2021-01-01")) eq_refl) as [H _].
  exact H.
Defined.

(* ------------------------------------------------------------------------ *)
(** * Escaping *)
(* ------------------------------------------------------------------------ *)

Lemma occ_app x a b : occ x (a ++ b) = occ x a + occ x b.
Proof. apply count_occ_app. Qed.

Lemma occ_cons x c s : occ x (c :: s) = (if ascii_dec c x then 1 else 0) + occ x s.
Proof. unfold occ. simpl. now destruct (ascii_dec c x). Qed.

Lemma occ_rev x s : occ x (rev s) = occ x s.
Proof. apply count_occ_rev. Qed.

Lemma occ_not_in x s : ~ In x s -> occ x s = 0.
Proof. apply count_occ_not_In. Qed.

Lemma occ_lstrip_by x p s : p x = false -> occ x (lstrip_by p s) = occ x s.
Proof.
  intros Hx. induction s as [|c t IH]; [reflexivity|].
  cbn [lstrip_by]. destruct (p c) eqn:E; [|reflexivity].
  rewrite IH, occ_cons. destruct (ascii_dec c x); [congruence|reflexivity].
Qed.

Lemma occ_strip_by x p s : p x = false -> occ x (strip_by p s) = occ x s.
Proof.
  intros Hx. unfold strip_by, rstrip_by.
  now rewrite occ_rev, occ_lstrip_by, occ_rev, occ_lstrip_by.
Qed.

Lemma occ_join x sep parts :
  ~ In x sep -> occ x (join sep parts) = occ x (concat parts).
Proof.
  intros Hx. induction parts as [|a rest IH]; [reflexivity|].
  destruct rest as [|b rest'].
  - simpl. now rewrite app_nil_r.
  - rewrite join_cons. cbn [concat]. rewrite !occ_app, IH, (occ_not_in x sep Hx).
    cbn [concat]. rewrite occ_app. lia.
Qed.

Lemma startswith_cons_inv c p c' s :
  startswith (c :: p) (c' :: s) = true -> c = c' /\ startswith p s = true.
Proof.
  simpl. intros H. apply andb_true_iff in H as [Hc Hp].
  apply Ascii.eqb_eq in Hc. now split.
Qed.

(** While a separator is passed over, what is read is what remains of the
    separator; so a character that is not in the separator is found in the
    fragments as often as in the string. *)
Lemma occ_split_on x sep s :
  sep <> [] -> ~ In x sep ->
  forall skip cur,
    skip <= length sep ->
    startswith (drop (length sep - skip) sep) s = true ->
    occ x (concat (split_on sep skip cur s)) = occ x cur + occ x s.
Proof.
  intros Hne Hx. induction s as [|c t IH]; intros skip cur Hskip Hpre.
  - simpl. now rewrite app_nil_r, occ_rev.
  - destruct skip as [|k].
    + cbn [split_on]. destruct (startswith sep (c :: t)) eqn:E.
      * destruct sep as [|y sep']; [congruence|].
        apply startswith_cons_inv in E as [-> E].
        cbn [concat]. rewrite occ_app, occ_rev, IH.
        -- rewrite (occ_cons x c t).
           destruct (ascii_dec c x) as [->|]; [|reflexivity].
           exfalso. apply Hx. now left.
        -- simpl. lia.
        -- cbn [length]. replace (S (length sep') - (S (length sep') - 1)) with 1 by lia.
           exact E.
      * rewrite IH; [|lia|].
        -- rewrite !occ_cons. lia.
        -- rewrite Nat.sub_0_r, drop_all. reflexivity.
    + cbn [split_on].
      assert (Hlt : length sep - S k < length sep) by lia.
      destruct (lookup_lt_is_Some_2 sep _ Hlt) as [y Hy].
      rewrite (drop_S _ _ _ Hy) in Hpre.
      apply startswith_cons_inv in Hpre as [-> Hpre].
      replace (S (length sep - S k)) with (length sep - k) in Hpre by lia.
      rewrite IH; [|lia|exact Hpre].
      rewrite (occ_cons x c t).
      destruct (ascii_dec c x) as [->|]; [|reflexivity].
      exfalso. apply Hx. apply list_elem_of_In. now apply list_elem_of_lookup_2 in Hy.
Qed.

Lemma occ_split x sep s :
  sep <> [] -> ~ In x sep -> occ x (concat (split sep s)) = occ x s.
Proof.
  intros Hne Hx. unfold split. rewrite (occ_split_on x sep s Hne Hx 0 []).
  - reflexivity.
  - lia.
  - rewrite Nat.sub_0_r, drop_all. reflexivity.
Qed.

Lemma occ_kept_fragments x parts :
  is_space x = false ->
  occ x (concat (map strip (List.filter (fun part => truthy (strip part)) parts)))
  = occ x (concat parts).
Proof.
  intros Hx. induction parts as [|part rest IH]; [reflexivity|].
  cbn [List.filter concat]. rewrite occ_app, <- IH.
  destruct (truthy (strip part)) eqn:E.
  - cbn [map concat]. rewrite occ_app. unfold strip. now rewrite occ_strip_by.
  - rewrite <- (occ_strip_by x is_space part Hx). fold (strip part).
    destruct (strip part); [reflexivity|discriminate].
Qed.

(** Joining the authors keeps every character that is not a space and
    occurs in neither separator: as many of it as in the cleaned field. *)
Lemma occ_format_authors x field a :
  is_space x = false -> ~ In x (lit " and ") -> ~ In x (lit ", ") ->
  _format_authors field = Some a ->
  occ x a = occ x (_clean_whitespace field).
Proof.
  intros Hs Hin Hout. unfold _format_authors. destruct (is_empty _); [discriminate|].
  destruct (map strip _) as [|p ps] eqn:E; [discriminate|].
  intros H. assert (Ha : a = join (lit ", ") (p :: ps)) by congruence.
  rewrite Ha, <- E, occ_join by exact Hout.
  rewrite occ_kept_fragments by exact Hs. now apply occ_split.
Qed.

Lemma not_in_separators x :
  x = "%"%char \/ x = "\"%char ->
  is_space x = false /\ ~ In x (lit " and ") /\ ~ In x (lit ", ").
Proof.
  intros [->| ->]; (split; [reflexivity|]); split; intros H; simpl in H;
    repeat (destruct H as [H|H]; [discriminate H|]); destruct H.
Qed.

Lemma occ_escape value :
  occ "%"%char (_escape_meta_value value) = occ "%"%char value
  /\ occ "\"%char (_escape_meta_value value)
     = occ "\"%char value + occ "%"%char value.
Proof.
  unfold _escape_meta_value. induction value as [|c t [IH1 IH2]]; [now split|].
  change (replace_char "%"%char (lit "\%") (c :: t))
    with ((if Ascii.eqb c "%"%char then ["\"; "%"]%char else [c])
          ++ replace_char "%"%char (lit "\%") t).
  rewrite !occ_app, IH1, IH2, !(occ_cons _ c t).
  destruct (Ascii.eqb c "%"%char) eqn:E.
  - apply Ascii.eqb_eq in E. subst c.
    destruct (ascii_dec "%"%char "%"%char) as [_|N]; [|congruence].
    destruct (ascii_dec "%"%char "\"%char) as [D|_]; [discriminate D|].
    change (occ "%"%char ["\"; "%"]%char) with 1.
    change (occ "\"%char ["\"; "%"]%char) with 1. split; lia.
  - assert (Hc : c <> "%"%char) by (intros ->; discriminate E).
    rewrite !occ_cons. change (occ _ []) with 0.
    destruct (ascii_dec c "%"%char); [congruence|].
    destruct (ascii_dec c "\"%char); split; lia.
Qed.

(** C10. Only metadata values are escaped. Whenever [format_date] yields its
    value for a record, the document starts with the title line, which is
    the title between [\title{] and [}] as it is: as many percent signs, and
    only the backslash of the tag added; the author line likewise holds each
    percent sign and backslash of the cleaned author field; whereas in a
    metadata value every percent sign follows a backslash added for it. *)
Theorem escaping_only_in_metadata (e : entry) (d : option str) :
  _format_date e = Ok d ->
  (exists rest,
      build_lines e
      = Ok (title_line (title_of e) :: taxon_line
            :: opt_line author_line (_format_authors (get (lit "author") e)) ++ rest))
  /\ title_line (title_of e) = lit "\title{" ++ title_of e ++ lit "}"
  /\ occ "%"%char (title_line (title_of e)) = occ "%"%char (title_of e)
  /\ occ "\"%char (title_line (title_of e)) = 1 + occ "\"%char (title_of e)
  /\ (forall a, _format_authors (get (lit "author") e) = Some a ->
        author_line a = lit "\author/literal{" ++ a ++ lit "}"
        /\ occ "%"%char (author_line a)
           = occ "%"%char (_clean_whitespace (get (lit "author") e))
        /\ occ "\"%char (author_line a)
           = 1 + occ "\"%char (_clean_whitespace (get (lit "author") e)))
  /\ Forall (fun kv => percent_escaped false (snd kv) = true
                       /\ exists v, snd kv = _escape_meta_value v
                                    /\ occ "\"%char (snd kv)
                                       = occ "\"%char v + occ "%"%char v)
            (_meta_pairs e).
Proof.
  intros Hd. split.
  { rewrite (build_lines_shape e d Hd). unfold content_lines.
    eexists. cbn [app]. rewrite <- app_assoc. reflexivity. }
  split; [reflexivity|]. split.
  { unfold title_line. rewrite !occ_app. change (occ "%"%char (lit "\title{")) with 0.
    change (occ "%"%char (lit "}")) with 0. lia. }
  split.
  { unfold title_line. rewrite !occ_app. change (occ "\"%char (lit "\title{")) with 1.
    change (occ "\"%char (lit "}")) with 0. lia. }
  split.
  { intros a Ha. split; [reflexivity|]. unfold author_line. rewrite !occ_app.
    destruct (not_in_separators "%"%char (or_introl eq_refl)) as (P1 & P2 & P3).
    destruct (not_in_separators "\"%char (or_intror eq_refl)) as (B1 & B2 & B3).
    rewrite (occ_format_authors "%"%char _ a P1 P2 P3 Ha).
    rewrite (occ_format_authors "\"%char _ a B1 B2 B3 Ha).
    change (occ "%"%char (lit "\author/literal{")) with 0.
    change (occ "%"%char (lit "}")) with 0. split; [lia|].
    change (occ "\"%char (lit "\author/literal{")) with 1.
    change (occ "\"%char (lit "}")) with 0. lia. }
  rewrite meta_pairs_spec. apply List.Forall_forall. intros kv Hkv.
  apply in_map_iff in Hkv as ([f v] & <- & _). unfold project. cbn [fst snd].
  destruct (url_bearing f); cbn [snd];
    (split; [apply escape_percent_escaped|eexists; split; [reflexivity|apply occ_escape]]).
Qed.

Lemma escaping_only_in_metadata_witness :
  build_tree_content
    [(lit "title", lit "50% off"); (lit "author", lit "A% and B");
     (lit "note", lit "50% off")]
  = Ok (lit "\title{50% off}
\taxon{Reference}
\author/literal{A%, B}
\meta{note}{50\% off}
")
  /\ exists rest,
      build_lines [(lit "title", lit "50% off"); (lit "author", lit "A% and B");
                   (lit "note", lit "50% off")]
      = Ok (lit "\title{50% off}" :: lit "\taxon{Reference}"
            :: [lit "\author/literal{A%, B}"] ++ rest).
Proof.
  split; [reflexivity|].
  destruct (escaping_only_in_metadata
              [(lit "title", lit "50% off"); (lit "author", lit "A% and B");
               (lit "note", lit "50% off")] None eq_refl) as [H _].
  exact H.
Defined.

(* ------------------------------------------------------------------------ *)
(** * The batch converter *)
(* ------------------------------------------------------------------------ *)

Section Convert.
Variable output_dir : str.

Lemma convert_loop_app (overwrite : bool) (pre rest : list entry) (disk : gmap str str)
    (created : list str) :
  convert_loop output_dir overwrite (pre ++ rest) disk created
  = match convert_loop output_dir overwrite pre disk created with
    | (disk', Ok created') => convert_loop output_dir overwrite rest disk' created'
    | (disk', Raise x) => (disk', Raise x)
    end.
Proof.
  revert disk created. induction pre as [|e pre IH]; intros disk created; [reflexivity|].
  cbn [app convert_loop].
  destruct (path_exists disk (target output_dir e) && negb overwrite); [reflexivity|].
  destruct (build_tree_content e); [apply IH|reflexivity].
Qed.

Lemma path_exists_false (disk : gmap str str) (path : str) :
  path_exists disk path = false <-> disk !! path = None.
Proof. unfold path_exists. destruct (disk !! path); split; congruence. Qed.

(** Without overwrite a completed run has only added files: what was on the
    disk is still there, and so is the document of every record. *)
Lemma convert_loop_keeps (entries : list entry) (disk disk' : gmap str str)
    (created created' : list str) :
  convert_loop output_dir false entries disk created = (disk', Ok created') ->
  (forall path body, disk !! path = Some body -> disk' !! path = Some body)
  /\ Forall (fun e => exists body, build_tree_content e = Ok body
                                   /\ disk' !! target output_dir e = Some body)
            entries.
Proof.
  revert disk created. induction entries as [|e rest IH]; intros disk created H.
  - cbn [convert_loop] in H. injection H as <- <-. split; [auto|constructor].
  - cbn [convert_loop] in H. rewrite andb_true_r in H.
    destruct (path_exists disk (target output_dir e)) eqn:Ex; [discriminate|].
    apply path_exists_false in Ex.
    destruct (build_tree_content e) as [body|x] eqn:Eb; [|discriminate].
    destruct (IH _ _ H) as [Hkeep Hall]. split.
    + intros path b Hp. apply Hkeep. rewrite lookup_insert_ne; [exact Hp|].
      intros <-. congruence.
    + constructor; [|exact Hall]. exists body. split; [exact Eb|].
      apply Hkeep, lookup_insert_eq.
Qed.

(** X22. In a run without overwrite, let the records before [e] have been
    converted, leaving the disk [disk1], on which the target of [e] exists.
    Then the run stops at [e] with the refusal, the disk being [disk1]:
    nothing is written for [e], nor for the records after it, and the
    documents of the records before [e] are on the disk. With overwrite,
    the step for [e] puts its document, when it is built, in place of the
    existing file. *)
Theorem convert_refuses_existing_target
    (source : str) (pre post : list entry) (e : entry)
    (disk0 disk1 : gmap str str) (paths : list str) :
  convert_loop output_dir false pre disk0 [] = (disk1, Ok paths) ->
  path_exists disk1 (target output_dir e) = true ->
  convert_bibtex source (pre ++ e :: post) output_dir false disk0
  = (disk1, Raise (SystemExit (refusal (target output_dir e))))
  /\ Forall (fun p => exists body, build_tree_content p = Ok body
                                   /\ disk1 !! target output_dir p = Some body)
            pre
  /\ (forall path body, disk0 !! path = Some body -> disk1 !! path = Some body)
  /\ (forall body created,
        build_tree_content e = Ok body ->
        convert_loop output_dir true (e :: post) disk1 created
        = convert_loop output_dir true post
            (<[target output_dir e := body]> disk1)
            (created ++ [target output_dir e])
        /\ <[target output_dir e := body]> disk1 !! target output_dir e = Some body).
Proof.
  intros Hpre Hex. split; [|split; [|split]].
  - assert (Hrun : convert_bibtex source (pre ++ e :: post) output_dir false disk0
                   = convert_loop output_dir false (pre ++ e :: post) disk0 []).
    { unfold convert_bibtex. now destruct pre. }
    rewrite Hrun, convert_loop_app, Hpre. cbn [convert_loop]. now rewrite Hex.
  - now apply (convert_loop_keeps pre disk0 disk1 [] paths).
  - now apply (convert_loop_keeps pre disk0 disk1 [] paths).
  - intros body created Hb. split; [|apply lookup_insert_eq].
    cbn [convert_loop]. rewrite andb_false_r. now rewrite Hb.
Qed.
End Convert.

Lemma convert_refuses_existing_target_witness :
  convert_bibtex (lit "refs.bib") [paper; paper] (lit "out") false ∅
  = ({[ lit "out/doe2021.tree" := lit "\title{On Trees}
\taxon{Reference}
\date{2021-01-01}
\meta{ID}{Doe2021}
" ]},
     Raise (SystemExit (lit "Refusing to overwrite existing file out/doe2021.tree. Use --overwrite to replace.")))
  /\ convert_bibtex (lit "refs.bib") [paper] (lit "out") false
       {[ lit "out/doe2021.tree" := stale ]}
     = ({[ lit "out/doe2021.tree" := stale ]},
        Raise (SystemExit (lit "Refusing to overwrite existing file out/doe2021.tree. Use --overwrite to replace.")))
  /\ convert_loop (lit "out") true [paper] {[ lit "out/doe2021.tree" := stale ]} []
     = convert_loop (lit "out") true []
         (<[ target (lit "out") paper := lit "\title{On Trees}
\taxon{Reference}
\date{2021-01-01}
\meta{ID}{Doe2021}
" ]> {[ lit "out/doe2021.tree" := stale ]})
         ([] ++ [target (lit "out") paper]).
Proof.
  split; [|split].
  - destruct (convert_refuses_existing_target (lit "out") (lit "refs.bib") [paper] [] paper ∅
                ({[ lit "out/doe2021.tree" := lit "\title{On Trees}
\taxon{Reference}
\date{2021-01-01}
\meta{ID}{Doe2021}
" ]}) [lit "out/doe2021.tree"]) as [H _]; [reflexivity|reflexivity|].
    exact H.
  - destruct (convert_refuses_existing_target (lit "out") (lit "refs.bib") [] [] paper
                {[ lit "out/doe2021.tree" := stale ]} {[ lit "out/doe2021.tree" := stale ]}
                []) as [H _]; [reflexivity|reflexivity|].
    exact H.
  - destruct (convert_refuses_existing_target (lit "out") (lit "refs.bib") [] [] paper
                {[ lit "out/doe2021.tree" := stale ]} {[ lit "out/doe2021.tree" := stale ]}
                []) as (_ & _ & _ & H); [reflexivity|reflexivity|].
    apply H. reflexivity.
Defined.

(** C3. With overwrite enabled and the target on the disk, the file of a
    record whose year is no integer literal is not replaced: the run stops
    with the [ValueError] of the date before anything is written, and the
    file stays as it was. *)
Theorem convert_overwrite_not_replaced :
  let e := [(lit "ID", lit "x"); (lit "year", lit "abc")] in
  let disk : gmap str str := {[ lit "out/x.tree" := stale ]} in
  target (lit "out") e = lit "out/x.tree"
  /\ path_exists disk (target (lit "out") e) = true
  /\ convert_bibtex (lit "refs.bib") [e] (lit "out") true disk = (disk, Raise ValueError).
Proof. split; [reflexivity|]. split; reflexivity. Qed.

(* ------------------------------------------------------------------------ *)
(** * Worked examples *)
(* ------------------------------------------------------------------------ *)

Example clean_examples :
  _clean_whitespace (Some (lit "{ {A  study} }")) = lit "A study"
  /\ _clean_whitespace (Some (lit "{a}{b}")) = lit "a}{b"
  /\ _clean_whitespace (Some (lit "{")) = lit "{"
  /\ _clean_whitespace None = [].
Proof. repeat split; reflexivity. Qed.

Example format_authors_examples :
  _format_authors (Some (lit "Jane Doe and John Smith")) = Some (lit "Jane Doe, John Smith")
  /\ _format_authors (Some (lit "")) = None
  /\ _format_authors (Some (lit "{ and }")) = Some (lit "and")
  /\ _format_authors (Some (lit "A. Turing and  and B. Russell and")) = Some (lit "A. Turing, and B. Russell and").
Proof. repeat split; reflexivity. Qed.

Example slugify_examples :
  _slugify (lit " {Hello,  World--2} ") = lit "hello-world-2"
  /\ _slugify (lit "Doe2021") = lit "doe2021"
  /\ _slugify (lit "") = lit "reference".
Proof. repeat split; reflexivity. Qed.

Example parse_month_examples :
  _parse_month (Some (lit "DEC")) = Ok 12%Z
  /\ _parse_month (Some (lit " 7 ")) = Ok 7%Z
  /\ _parse_month (Some (lit "13")) = Ok 1%Z
  /\ _parse_month (Some (lit "0012")) = Ok 12%Z
  /\ _parse_month (Some (lit "spring")) = Ok 1%Z
  /\ _parse_month None = Ok 1%Z.
Proof. repeat split; reflexivity. Qed.

Example convert_no_entries :
  convert_bibtex (lit "refs.bib") [] (lit "out") true ∅
  = (∅, Raise (SystemExit (lit "No BibTeX entries found in refs.bib"))).
Proof. reflexivity. Qed.

(* ------------------------------------------------------------------------ *)
(** * Further properties of the field normalizer *)
(* ------------------------------------------------------------------------ *)

Lemma strip_strip s : strip (strip s) = strip s.
Proof.
  apply strip_by_id; [apply (head_ok_strip is_space)|apply (last_ok_strip is_space)].
Qed.

Lemma strip_braces_loop_stripped fuel value :
  strip value = value -> strip (strip_braces_loop fuel value) = strip_braces_loop fuel value.
Proof.
  revert value. induction fuel as [|fuel IH]; intros value Hv; [exact Hv|].
  simpl. destruct (brace_wrapped value); [|exact Hv]. apply IH, strip_strip.
Qed.

Lemma strip_braces_loop_length fuel value :
  length (strip_braces_loop fuel value) <= length value.
Proof.
  revert value. induction fuel as [|fuel IH]; intros value; [reflexivity|].
  simpl. destruct (brace_wrapped value); [|reflexivity].
  etransitivity; [apply IH|].
  pose proof (strip_by_length is_space (slice 1 1 value)) as H.
  rewrite slice_length in H. unfold strip. lia.
Qed.

(** X1. What [_strip_braces] returns is never wrapped in a pair of braces,
    has no space at either end, is no longer than the argument, and is left
    unchanged by a second application. *)
Theorem strip_braces_normal_form (value : str) :
  brace_wrapped (_strip_braces value) = false
  /\ strip (_strip_braces value) = _strip_braces value
  /\ length (_strip_braces value) <= length value
  /\ _strip_braces (_strip_braces value) = _strip_braces value.
Proof.
  assert (Hs : strip (_strip_braces value) = _strip_braces value).
  { unfold _strip_braces. apply strip_braces_loop_stripped, strip_strip. }
  split; [apply strip_braces_exit|]. split; [exact Hs|]. split.
  - unfold _strip_braces. etransitivity; [apply strip_braces_loop_length|].
    apply strip_by_length.
  - unfold _strip_braces at 1. rewrite Hs.
    apply strip_braces_loop_fixed, strip_braces_exit.
Qed.

(** The first fragment of a split starts with what had been read so far. *)
Lemma split_on_head sep cur s :
  exists frag rest, split_on sep 0 cur s = (rev cur ++ frag) :: rest.
Proof.
  revert cur. induction s as [|c t IH]; intros cur.
  - exists [], []. simpl. now rewrite app_nil_r.
  - cbn [split_on]. destruct (startswith sep (c :: t)).
    + eexists [], _. now rewrite app_nil_r.
    + destruct (IH (c :: cur)) as (frag & rest & ->).
      exists (c :: frag), rest. simpl. now rewrite <- app_assoc.
Qed.

Lemma occ_positive_nonempty x s : 0 < occ x s -> s <> [].
Proof. intros H ->. unfold occ in H. simpl in H. lia. Qed.

(** X2. [format_authors] returns [None] exactly when the cleaned field is
    empty: a cleaned field that is not empty starts with a character that is
    no space, so its first fragment is kept. *)
Theorem format_authors_none_iff (author_field : option str) :
  _format_authors author_field = None <-> _clean_whitespace author_field = [].
Proof.
  unfold _format_authors.
  destruct (clean_tidy author_field) as (_ & Hh & _).
  destruct (_clean_whitespace author_field) as [|c t] eqn:E; [now split|].
  cbn [is_empty]. split; [|discriminate]. intros H. exfalso.
  simpl in Hh. unfold not_space in Hh. apply negb_true_iff in Hh.
  assert (Hsplit : exists frag rest, split (lit " and ") (c :: t) = (c :: frag) :: rest).
  { unfold split. cbn [split_on].
    assert (Hst : startswith (lit " and ") (c :: t) = false).
    { change (startswith (lit " and ") (c :: t))
        with (Ascii.eqb " "%char c && startswith (lit "and ") t).
      destruct (Ascii.eqb " "%char c) eqn:Ec; [|reflexivity].
      apply Ascii.eqb_eq in Ec. subst c. discriminate Hh. }
    rewrite Hst. destruct (split_on_head (lit " and ") [c] t) as (frag & rest & ->).
    now exists frag, rest. }
  destruct Hsplit as (frag & rest & Hsplit). rewrite Hsplit in H.
  cbn [List.filter] in H.
  assert (Hkeep : truthy (strip (c :: frag)) = true).
  { apply truthy_nonempty, (occ_positive_nonempty c). unfold strip.
    rewrite occ_strip_by by exact Hh. rewrite occ_cons.
    destruct (ascii_dec c c); [lia|congruence]. }
  rewrite Hkeep in H. discriminate H.
Qed.

Lemma sparse_space_is_blank s c :
  sparse s = true -> In c s -> is_space c = true -> c = " "%char.
Proof.
  induction s as [|x t IH]; [intros _ []|].
  intros Hs Hin Hc. simpl in Hs. apply andb_true_iff in Hs as [Hx Ht].
  destruct Hin as [->|Hin]; [|now apply IH].
  rewrite Hc in Hx. simpl in Hx. apply andb_true_iff in Hx as [Hx _].
  now apply Ascii.eqb_eq in Hx.
Qed.

(** X21. A cleaned value holds no line break: its only space characters are
    blanks, never two in a row and none at either end; and it is not
    wrapped in a pair of braces. *)
Theorem clean_normal_form (value : option str) :
  (forall c, In c (_clean_whitespace value) -> is_space c = true -> c = " "%char)
  /\ ~ In "010"%char (_clean_whitespace value)
  /\ sparse (_clean_whitespace value) = true
  /\ strip (_clean_whitespace value) = _clean_whitespace value
  /\ brace_wrapped (_clean_whitespace value) = false.
Proof.
  pose proof (clean_tidy value) as Ht. destruct Ht as (Hs & Hh & Hl).
  assert (Hblank : forall c, In c (_clean_whitespace value) ->
                             is_space c = true -> c = " "%char).
  { intros c. now apply sparse_space_is_blank. }
  split; [exact Hblank|]. split.
  - intros Hin. specialize (Hblank _ Hin eq_refl). discriminate Hblank.
  - split; [exact Hs|]. split; [|apply clean_not_wrapped].
    apply strip_tidy. now repeat split.
Qed.

(* ------------------------------------------------------------------------ *)
(** * Further properties of the identifier synthesizer *)
(* ------------------------------------------------------------------------ *)

Lemma is_space_lower_char c : is_space (lower_char c) = is_space c.
Proof. by_cases_on_char c. Qed.

Lemma lower_char_idempotent c : lower_char (lower_char c) = lower_char c.
Proof. by_cases_on_char c. Qed.

Lemma lstrip_lower s : lstrip_by is_space (lower s) = lower (lstrip_by is_space s).
Proof.
  induction s as [|c t IH]; [reflexivity|].
  cbn [lower map lstrip_by]. rewrite is_space_lower_char.
  destruct (is_space c); [exact IH|reflexivity].
Qed.

Lemma lower_rev s : lower (rev s) = rev (lower s).
Proof. unfold lower. apply map_rev. Qed.

Lemma strip_lower s : strip (lower s) = lower (strip s).
Proof.
  unfold strip, strip_by, rstrip_by.
  now rewrite lstrip_lower, <- lower_rev, lstrip_lower, lower_rev.
Qed.

Lemma lower_lower s : lower (lower s) = lower s.
Proof.
  unfold lower. rewrite map_map. apply map_ext. intros c. apply lower_char_idempotent.
Qed.

(** X3. The slug does not depend on the case of the letters nor on the space
    around the name: lowercasing or trimming the name first gives the same
    slug. *)
Theorem slugify_ignores_case_and_margin (name : str) :
  _slugify (lower name) = _slugify name
  /\ _slugify (strip name) = _slugify name.
Proof.
  rewrite !slugify_unfold. cbv zeta.
  now rewrite strip_lower, lower_lower, strip_strip.
Qed.

Lemma matches_slug_no_char x in_group s :
  is_slug_char x = false -> is_hyphen x = false ->
  matches_slug in_group s = true -> ~ In x s.
Proof.
  intros Hs Hh H Hin. apply matches_slug_alphabet in H.
  rewrite forallb_forall in H. specialize (H x Hin).
  unfold slug_or_hyphen in H. now rewrite Hs, Hh in H.
Qed.

(** X4. The file name of a record is a slug followed by [".tree"]: it holds
    no slash and no backslash, and starts with a lowercase letter or a
    digit, so the target stays right under the output directory. *)
Theorem filename_is_safe (e : entry) :
  (exists slug, filename e = slug ++ lit ".tree" /\ slug_pattern slug = true)
  /\ ~ In "/"%char (filename e)
  /\ ~ In "\"%char (filename e)
  /\ head_ok is_slug_char (filename e) = true.
Proof.
  unfold filename. pose proof (slugify_matches (citekey e)) as Hm.
  split; [now exists (_slugify (citekey e))|].
  assert (Hno : forall x, is_slug_char x = false -> is_hyphen x = false ->
                          ~ In x (lit ".tree") -> ~ In x (_slugify (citekey e) ++ lit ".tree")).
  { intros x Hs Hh Hx Hin. apply in_app_or in Hin as [Hin|Hin]; [|now apply Hx].
    now apply (matches_slug_no_char x false _ Hs Hh Hm). }
  split; [|split].
  - apply Hno; try reflexivity. intros H. simpl in H.
    repeat (destruct H as [H|H]; [discriminate H|]). destruct H.
  - apply Hno; try reflexivity. intros H. simpl in H.
    repeat (destruct H as [H|H]; [discriminate H|]). destruct H.
  - unfold slug_pattern in Hm. destruct (_slugify (citekey e)) as [|c t]; [discriminate|].
    simpl. now apply matches_slug_head in Hm.
Qed.

(* ------------------------------------------------------------------------ *)
(** * Further properties of the dates *)
(* ------------------------------------------------------------------------ *)

Lemma name_map_range key : (1 <= get_default key 1 name_map <= 12)%Z.
Proof.
  unfold get_default, name_map. cbn [get].
  repeat (destruct (str_eqb _ key); [lia|]). lia.
Qed.

Lemma parse_month_range raw m : _parse_month raw = Ok m -> (1 <= m <= 12)%Z.
Proof.
  unfold _parse_month. destruct raw as [s|]; [|intros [= <-]; lia].
  destruct (is_empty s); [intros [= <-]; lia|].
  destruct (isdigit _).
  - destruct (py_int _) as [v|]; [|discriminate].
    destruct ((1 <=? v)%Z && (v <=? 12)%Z) eqn:E; intros [= <-].
    + apply andb_true_iff in E as [E1 E2]. lia.
    + apply name_map_range.
  - intros [= <-]. apply name_map_range.
Qed.

Lemma parse_month_raises raw x : _parse_month raw = Raise x -> x = ValueError.
Proof.
  unfold _parse_month. destruct raw as [s|]; [|discriminate].
  destruct (is_empty s); [discriminate|]. destruct (isdigit _); [|discriminate].
  destruct (py_int _) as [v|]; [|now intros [= <-]].
  destruct ((1 <=? v)%Z && (v <=? 12)%Z); discriminate.
Qed.

(** X5. Whenever [parse_month] returns, the month is one of 1..12, whatever
    the input. *)
Theorem parse_month_in_range (raw : option str) (m : Z) :
  _parse_month raw = Ok m -> (1 <= m <= 12)%Z.
Proof. apply parse_month_range. Qed.

Lemma parse_month_in_range_witness :
  (1 <= 12 <= 12)%Z.
Proof. apply (parse_month_in_range (Some (lit "December")) 12%Z). reflexivity. Defined.

Lemma zfill_length width s : length (zfill width s) = Nat.max width (length s).
Proof. unfold zfill. rewrite length_app, repeat_length. lia. Qed.

Lemma format_d0_length width z : width <= length (format_d0 width z).
Proof.
  unfold format_d0. destruct (z <? 0)%Z.
  - cbn [length]. rewrite zfill_length. lia.
  - rewrite zfill_length. lia.
Qed.

(** Two digits exactly for the numbers from 0 to 99. *)
Lemma format_d0_two z :
  (0 <= z < 100)%Z ->
  length (format_d0 2 z) = 2 /\ forallb is_decimal (format_d0 2 z) = true.
Proof.
  intros Hz.
  assert (Hall : forallb (fun n => Nat.eqb (length (format_d0 2 (Z.of_nat n))) 2
                                   && forallb is_decimal (format_d0 2 (Z.of_nat n)))
                         (seq 0 100) = true) by (vm_compute; reflexivity).
  rewrite forallb_forall in Hall. specialize (Hall (Z.to_nat z)).
  rewrite Z2Nat.id in Hall by lia.
  assert (Hin : In (Z.to_nat z) (seq 0 100)) by (apply in_seq; lia).
  apply Hall in Hin. apply andb_true_iff in Hin as [H1 H2].
  apply Nat.eqb_eq in H1. now split.
Qed.

(** X6. A date that [format_date] returns reads [Y-MM-DD]: a year part of
    four characters at least, then a month part and a day part of two
    decimal digits each, the three separated by hyphens. *)
Theorem format_date_shape (e : entry) (d : str) :
  _format_date e = Ok (Some d) ->
  exists y m dd,
    d = y ++ lit "-" ++ m ++ lit "-" ++ dd
    /\ 4 <= length y
    /\ length m = 2 /\ forallb is_decimal m = true
    /\ length dd = 2 /\ forallb is_decimal dd = true.
Proof.
  unfold _format_date. destruct (is_empty _); [discriminate|].
  destruct (_parse_month _) as [m|x] eqn:Em; [|discriminate]. cbn [res_bind].
  destruct (py_int (_clean_whitespace (get (lit "year") e))) as [y|]; [|discriminate].
  intros [= <-]. apply parse_month_range in Em.
  set (dv := Z.min (Z.max _ 1) 31).
  assert (Hdv : (0 <= dv < 100)%Z) by (subst dv; lia).
  destruct (format_d0_two m ltac:(lia)) as [Hm1 Hm2].
  destruct (format_d0_two dv Hdv) as [Hd1 Hd2].
  exists (format_d0 4 y), (format_d0 2 m), (format_d0 2 dv).
  split; [reflexivity|]. split; [apply format_d0_length|]. now repeat split.
Qed.

Lemma format_date_shape_witness :
  exists y m dd,
    lit "0987-03-01" = y ++ lit "-" ++ m ++ lit "-" ++ dd
    /\ 4 <= length y
    /\ length m = 2 /\ forallb is_decimal m = true
    /\ length dd = 2 /\ forallb is_decimal dd = true.
Proof.
  apply (format_date_shape
           [(lit "year", lit "{ 987 }"); (lit "month", lit "3"); (lit "day", lit "x")]).
  reflexivity.
Defined.

Lemma format_date_raise_cases (e : entry) (x : exn) :
  _format_date e = Raise x
  <-> x = ValueError
      /\ _clean_whitespace (get (lit "year") e) <> []
      /\ (py_int (_clean_whitespace (get (lit "year") e)) = None
          \/ _parse_month (Some (_clean_whitespace (get (lit "month") e))) = Raise ValueError).
Proof.
  unfold _format_date.
  destruct (_clean_whitespace (get (lit "year") e)) as [|c t] eqn:Ey.
  { cbn [is_empty]. split; [discriminate|]. now intros (_ & H & _). }
  cbn [is_empty].
  destruct (_parse_month _) as [m|x'] eqn:Em; cbn [res_bind].
  - destruct (py_int (c :: t)) as [y|].
    + split; [discriminate|]. intros (_ & _ & [H|H]); discriminate H.
    + split.
      * intros [= <-]. split; [reflexivity|]. split; [discriminate|now left].
      * now intros (-> & _).
  - pose proof (parse_month_raises _ _ Em) as ->. split.
    + intros [= <-]. split; [reflexivity|]. split; [discriminate|now right].
    + now intros (-> & _).
Qed.

(** X7. [format_date] does not raise on a record whose cleaned year is a
    string of decimal digits, no more of them than [int] reads, unless the
    month is all digits for [isdigit] and no number for [int]: it returns the
    date of that year, of the month [parse_month] gives and of the day,
    which is the integer of the day field, or 1 when there is none, brought
    into 1..31. *)
Theorem format_date_numeric_year (e : entry) :
  all_decimal (_clean_whitespace (get (lit "year") e)) = true ->
  length (_clean_whitespace (get (lit "year") e)) <= int_max_str_digits ->
  unreadable_number (lower (strip (_clean_whitespace (get (lit "month") e)))) = false ->
  exists m,
    _parse_month (Some (_clean_whitespace (get (lit "month") e))) = Ok m
    /\ _format_date e
       = Ok (Some (format_d0 4 (decimal_value (_clean_whitespace (get (lit "year") e)))
                   ++ lit "-" ++ format_d0 2 m ++ lit "-" ++ format_d0 2 (day_of e))).
Proof.
  intros Hy Hlen Hm.
  exists (parse_month_digits (Some (_clean_whitespace (get (lit "month") e)))).
  split; [now apply parse_month_returns_digits|].
  apply format_date_returns; [|now apply py_int_decimal|exact Hm].
  intros E. rewrite E in Hy. discriminate Hy.
Qed.

Lemma format_date_numeric_year_witness :
  exists m,
    _parse_month (Some (lit "Sept")) = Ok m
    /\ _format_date [(lit "year", lit "{0987}"); (lit "month", lit "Sept");
                     (lit "day", lit "40")]
       = Ok (Some (lit "0987" ++ lit "-" ++ format_d0 2 m ++ lit "-" ++ lit "31")).
Proof.
  apply (format_date_numeric_year
           [(lit "year", lit "{0987}"); (lit "month", lit "Sept"); (lit "day", lit "40")]);
    [reflexivity|apply Nat.leb_le; reflexivity|reflexivity].
Defined.

(* ------------------------------------------------------------------------ *)
(** * Further properties of the metadata projector *)
(* ------------------------------------------------------------------------ *)

Lemma escape_cons c t :
  _escape_meta_value (c :: t)
  = (if Ascii.eqb c "%"%char then ["\"; "%"]%char else [c]) ++ _escape_meta_value t.
Proof. reflexivity. Qed.

Lemma escape_head_not_percent value t :
  _escape_meta_value value <> "%"%char :: t.
Proof.
  destruct value as [|c v]; [discriminate|]. rewrite escape_cons.
  destruct (Ascii.eqb c "%"%char) eqn:E; [discriminate|].
  intros [= -> _]. discriminate E.
Qed.

Lemma escape_injective (a b : str) :
  _escape_meta_value a = _escape_meta_value b -> a = b.
Proof.
  revert b. induction a as [|c a IH]; intros [|d b] H.
  - reflexivity.
  - rewrite escape_cons in H. destruct (Ascii.eqb d "%"%char); discriminate H.
  - rewrite escape_cons in H. destruct (Ascii.eqb c "%"%char); discriminate H.
  - rewrite !escape_cons in H.
    destruct (Ascii.eqb c "%"%char) eqn:Ec, (Ascii.eqb d "%"%char) eqn:Ed.
    + apply Ascii.eqb_eq in Ec, Ed. subst. injection H as H. f_equal. now apply IH.
    + injection H as Hd H. symmetry in H. now apply escape_head_not_percent in H.
    + injection H as Hd H. now apply escape_head_not_percent in H.
    + injection H as -> H. f_equal. now apply IH.
Qed.

(** X8. Escaping loses nothing: two values with the same escaped form are
    the same value. *)
Theorem escape_meta_value_injective (a b : str) :
  _escape_meta_value a = _escape_meta_value b -> a = b.
Proof. exact (escape_injective a b). Qed.

Lemma escape_meta_value_injective_witness : lit "50% off" = lit "50% off".
Proof. apply escape_meta_value_injective. reflexivity. Defined.

Lemma escape_empty value : _escape_meta_value value = [] -> value = [].
Proof. intros H. now apply escape_injective. Qed.

(** X9. What [_strip_url_command] returns has no space at either end and is
    no longer than the value; a value that is not wrapped in [\url{...}] is
    only trimmed. *)
Theorem strip_url_command_trimmed (value : str) :
  strip (_strip_url_command value) = _strip_url_command value
  /\ length (_strip_url_command value) <= length value
  /\ (startswith (lit "\url{") (strip value) && endswith (lit "}") (strip value) = false ->
      _strip_url_command value = strip value).
Proof.
  unfold _strip_url_command. cbv zeta.
  destruct (startswith _ _ && endswith _ _).
  - split; [apply strip_strip|]. split; [|discriminate].
    etransitivity; [apply strip_by_length|]. rewrite slice_length.
    pose proof (strip_by_length is_space value). unfold strip. lia.
  - split; [apply strip_strip|]. split; [apply strip_by_length|reflexivity].
Qed.

Lemma strip_url_command_trimmed_witness :
  _strip_url_command (lit " http://a.b/c ") = lit "http://a.b/c".
Proof.
  destruct (strip_url_command_trimmed (lit " http://a.b/c ")) as (_ & _ & H).
  apply H. reflexivity.
Defined.

Lemma mem_lower_external_not_core field :
  mem field skip = false ->
  mem (if url_bearing field then lit "external" else field) skip = false.
Proof. intros H. now destruct (url_bearing field). Qed.

(** X10. The projector emits at most one entry per field; no emitted key is
    one of the five core keys; and an emitted value is empty only under the
    key [external] (a [\url{}] wrapper around nothing). *)
Theorem meta_pairs_keys_and_values (e : entry) :
  length (_meta_pairs e) <= length e
  /\ Forall (fun kv => mem (fst kv) skip = false
                       /\ (snd kv = [] -> fst kv = lit "external"))
            (_meta_pairs e).
Proof.
  rewrite meta_pairs_spec. split.
  - rewrite length_map. apply filter_length_le.
  - apply List.Forall_forall. intros kv Hkv.
    apply in_map_iff in Hkv as ([f v] & <- & Hin).
    apply filter_In in Hin as [_ Hs]. unfold survives in Hs. cbn [fst snd] in Hs.
    apply andb_true_iff in Hs as [Hf Hv]. apply negb_true_iff in Hf.
    unfold project. cbn [fst snd]. destruct (url_bearing f); cbn [fst snd].
    + split; [reflexivity|]. reflexivity.
    + split; [exact Hf|]. intros H. apply escape_empty in H.
      rewrite H in Hv. discriminate Hv.
Qed.

(* ------------------------------------------------------------------------ *)
(** * Further properties of the conversion *)
(* ------------------------------------------------------------------------ *)

Lemma format_date_value_error e x : _format_date e = Raise x -> x = ValueError.
Proof. intros H. now apply format_date_raise_cases in H. Qed.

Lemma build_tree_content_raise_cases (e : entry) (x : exn) :
  build_tree_content e = Raise x <-> _format_date e = Raise x.
Proof.
  destruct (_format_date e) as [d|y] eqn:Ed.
  - rewrite (build_tree_content_shape e d Ed). split; discriminate.
  - unfold build_tree_content, build_lines. rewrite Ed. cbn [res_bind].
    split; intros [= ->]; reflexivity.
Qed.

Lemma build_tree_content_value_error e x : build_tree_content e = Raise x -> x = ValueError.
Proof. intros H. apply build_tree_content_raise_cases in H. now apply format_date_value_error in H. Qed.

Section ConvertMore.
Variable output_dir : str.

Lemma convert_loop_overwrite_error (entries : list entry) (disk disk' : gmap str str)
    (created : list str) (x : exn) :
  convert_loop output_dir true entries disk created = (disk', Raise x) -> x = ValueError.
Proof.
  revert disk created. induction entries as [|e rest IH]; intros disk created H.
  - discriminate H.
  - cbn [convert_loop] in H. rewrite andb_false_r in H.
    destruct (build_tree_content e) as [body|y] eqn:Eb.
    + now apply IH in H.
    + injection H as _ <-. now apply build_tree_content_value_error in Eb.
Qed.

(** X12. With overwrite enabled a run is never refused: whatever makes it
    fail, it is not the [SystemExit] of an existing target. *)
Theorem convert_overwrite_never_refuses
    (source : str) (entries : list entry) (disk disk' : gmap str str) (x : exn)
    (tgt : str) :
  convert_bibtex source entries output_dir true disk = (disk', Raise x) ->
  x <> SystemExit (refusal tgt).
Proof.
  intros H. unfold convert_bibtex in H. destruct entries as [|e rest].
  - injection H as _ <-. unfold refusal. intros [=].
  - apply convert_loop_overwrite_error in H. subst x. discriminate.
Qed.

Lemma convert_loop_created (overwrite : bool) (entries : list entry)
    (disk disk' : gmap str str) (created paths : list str) :
  convert_loop output_dir overwrite entries disk created = (disk', Ok paths) ->
  paths = created ++ map (target output_dir) entries
  /\ disk' = fold_left (write_document output_dir) entries disk
  /\ Forall (fun e => exists body, build_tree_content e = Ok body) entries.
Proof.
  revert disk created. induction entries as [|e rest IH]; intros disk created H.
  - cbn [convert_loop] in H. injection H as <- <-. now rewrite app_nil_r.
  - cbn [convert_loop] in H.
    destruct (path_exists disk (target output_dir e) && negb overwrite); [discriminate|].
    destruct (build_tree_content e) as [body|y] eqn:Eb; [|discriminate].
    destruct (IH _ _ H) as (-> & -> & Hall). split; [|split].
    + now rewrite <- app_assoc.
    + assert (Hw : write_document output_dir disk e
                   = <[target output_dir e := body]> disk).
      { unfold write_document. now rewrite Eb. }
      cbn [fold_left]. now rewrite Hw.
    + constructor; [now exists body|exact Hall].
Qed.

Lemma convert_loop_fresh (entries : list entry) (disk disk' : gmap str str)
    (created paths : list str) :
  convert_loop output_dir false entries disk created = (disk', Ok paths) ->
  NoDup (map (target output_dir) entries)
  /\ Forall (fun p => disk !! p = None) (map (target output_dir) entries).
Proof.
  revert disk created. induction entries as [|e rest IH]; intros disk created H.
  - split; constructor.
  - cbn [convert_loop] in H. rewrite andb_true_r in H.
    destruct (path_exists disk (target output_dir e)) eqn:Ex; [discriminate|].
    unfold path_exists in Ex.
    destruct (disk !! target output_dir e) eqn:El; [discriminate|].
    destruct (build_tree_content e) as [body|y] eqn:Eb; [|discriminate].
    destruct (IH _ _ H) as [Hnd Hall]. cbn [map].
    assert (Hnotin : ~ In (target output_dir e) (map (target output_dir) rest)).
    { intros Hin. rewrite List.Forall_forall in Hall. specialize (Hall _ Hin).
      rewrite lookup_insert_eq in Hall. discriminate Hall. }
    split.
    + apply NoDup_cons. split; [|exact Hnd].
      intros Hin. apply Hnotin. now apply list_elem_of_In.
    + constructor; [exact El|].
      apply List.Forall_forall. intros p Hp.
      rewrite List.Forall_forall in Hall. specialize (Hall _ Hp).
      rewrite lookup_insert_ne in Hall; [exact Hall|].
      intros <-. now apply Hnotin.
Qed.

(** X13. A run that succeeds returns the targets of the records, one for
    each record and in their order, and leaves the disk with the document of
    each record written at its target, in that order. Without overwrite the
    targets are moreover pairwise distinct and none of them was on the disk
    before. *)
Theorem convert_success
    (source : str) (overwrite : bool) (entries : list entry)
    (disk disk' : gmap str str) (paths : list str) :
  convert_bibtex source entries output_dir overwrite disk = (disk', Ok paths) ->
  paths = map (target output_dir) entries
  /\ disk' = fold_left (write_document output_dir) entries disk
  /\ Forall (fun e => exists body, build_tree_content e = Ok body) entries
  /\ (overwrite = false ->
      NoDup paths /\ Forall (fun p => disk !! p = None) paths).
Proof.
  intros H. unfold convert_bibtex in H.
  destruct entries as [|e rest] eqn:E; [discriminate|]. rewrite <- E in *.
  destruct (convert_loop_created _ _ _ _ _ _ H) as (Hp & Hd & Hall).
  cbn [app] in Hp. split; [exact Hp|]. split; [exact Hd|]. split; [exact Hall|].
  intros ->. rewrite Hp. now apply (convert_loop_fresh entries disk disk' [] paths).
Qed.

Lemma convert_loop_frame (overwrite : bool) (entries : list entry)
    (disk disk' : gmap str str) (created : list str) (r : res (list str)) (p : str) :
  convert_loop output_dir overwrite entries disk created = (disk', r) ->
  ~ In p (map (target output_dir) entries) ->
  disk' !! p = disk !! p.
Proof.
  revert disk created. induction entries as [|e rest IH]; intros disk created H Hp.
  - cbn [convert_loop] in H. now injection H as <- _.
  - cbn [convert_loop] in H. cbn [map] in Hp.
    destruct (path_exists disk (target output_dir e) && negb overwrite).
    { now injection H as <- _. }
    destruct (build_tree_content e) as [body|y]; [|now injection H as <- _].
    rewrite (IH _ _ H); [|intros Hin; apply Hp; now right].
    apply lookup_insert_ne. intros Heq. apply Hp. now left.
Qed.

(** X14. Whatever the outcome of a run, a path that is the target of none of
    the records holds after the run what it held before. *)
Theorem convert_touches_targets_only
    (source : str) (overwrite : bool) (entries : list entry)
    (disk disk' : gmap str str) (r : res (list str)) (p : str) :
  convert_bibtex source entries output_dir overwrite disk = (disk', r) ->
  ~ In p (map (target output_dir) entries) ->
  disk' !! p = disk !! p.
Proof.
  intros H Hp. unfold convert_bibtex in H. destruct entries as [|e rest] eqn:E.
  - now injection H as <- _.
  - rewrite <- E in *. now apply (convert_loop_frame _ _ _ _ _ _ _ H).
Qed.
End ConvertMore.

Lemma convert_overwrite_never_refuses_witness :
  ValueError <> SystemExit (refusal (lit "out/x.tree")).
Proof.
  apply (convert_overwrite_never_refuses (lit "out") (lit "refs.bib")
           [paper; [(lit "ID", lit "x"); (lit "year", lit "n.d.")]]
           {[ lit "out/doe2021.tree" := stale; lit "out/x.tree" := stale ]}
           {[ lit "out/doe2021.tree" := lit "\title{On Trees}
\taxon{Reference}
\date{2021-01-01}
\meta{ID}{Doe2021}
"; lit "out/x.tree" := stale ]} ValueError (lit "out/x.tree")).
  reflexivity.
Defined.

Lemma convert_success_witness :
  [lit "out/doe2021.tree"] = map (target (lit "out")) [paper]
  /\ ({[ lit "out/doe2021.tree" := lit "\title{On Trees}
\taxon{Reference}
\date{2021-01-01}
\meta{ID}{Doe2021}
" ]} : gmap str str) = fold_left (write_document (lit "out")) [paper] ∅
  /\ Forall (fun e => exists body, build_tree_content e = Ok body) [paper]
  /\ (false = false ->
      NoDup [lit "out/doe2021.tree"]
      /\ Forall (fun p => (∅ : gmap str str) !! p = None) [lit "out/doe2021.tree"]).
Proof.
  apply (convert_success (lit "out") (lit "refs.bib") false [paper] ∅). reflexivity.
Defined.

Lemma convert_touches_targets_only_witness :
  ({[ lit "out/doe2021.tree" := lit "\title{On Trees}
\taxon{Reference}
\date{2021-01-01}
\meta{ID}{Doe2021}
" ]} : gmap str str) !! lit "out/notes.tree" = (∅ : gmap str str) !! lit "out/notes.tree".
Proof.
  apply (convert_touches_targets_only (lit "out") (lit "refs.bib") false [paper] ∅ _
           (Ok [lit "out/doe2021.tree"])).
  - reflexivity.
  - intros [H|[]]. discriminate H.
Defined.

(* ------------------------------------------------------------------------ *)
(** * [to_base36] *)
(* ------------------------------------------------------------------------ *)

Lemma base36_digit_at r :
  (0 <= r < 36)%Z ->
  int36_digit (nth (Z.to_nat r) BASE36_DIGITS "0"%char) = r
  /\ is_base36_lower (nth (Z.to_nat r) BASE36_DIGITS "0"%char) = true.
Proof.
  intros Hr.
  assert (Hall : forallb (fun n => Z.eqb (int36_digit (nth n BASE36_DIGITS "0"%char))
                                         (Z.of_nat n)
                                   && is_base36_lower (nth n BASE36_DIGITS "0"%char))
                         (seq 0 36) = true) by (vm_compute; reflexivity).
  rewrite forallb_forall in Hall.
  assert (Hin : In (Z.to_nat r) (seq 0 36)) by (apply in_seq; lia).
  apply Hall in Hin. apply andb_true_iff in Hin as [H1 H2].
  apply Z.eqb_eq in H1. rewrite Z2Nat.id in H1 by lia. now split.
Qed.

Lemma pow36_succ k : (36 ^ Z.of_nat (S k) = 36 * 36 ^ Z.of_nat k)%Z.
Proof. rewrite Nat2Z.inj_succ. apply Z.pow_succ_r. lia. Qed.

Lemma pow36_pos k : (0 < 36 ^ Z.of_nat k)%Z.
Proof. apply Z.pow_pos_nonneg; lia. Qed.

(** The loop appends the digits of [n], least significant first, and with
    [fuel] iterations at hand it runs to its end whenever [n < 2 ^ fuel]. *)
Lemma base36_loop_spec fuel n acc :
  (0 <= n < 2 ^ Z.of_nat fuel)%Z ->
  exists ds,
    base36_loop fuel n acc = acc ++ ds
    /\ le_value ds = n
    /\ forallb is_base36_lower ds = true
    /\ (n < 36 ^ Z.of_nat (length ds))%Z
    /\ (ds <> [] -> (36 ^ Z.of_nat (length ds - 1) <= n)%Z).
Proof.
  revert n acc. induction fuel as [|fuel IH]; intros n acc Hn.
  - exists []. change (2 ^ Z.of_nat 0)%Z with 1%Z in Hn.
    assert (n = 0%Z) by lia. subst n. rewrite app_nil_r.
    split; [reflexivity|]. split; [reflexivity|]. split; [reflexivity|].
    split; [simpl; lia|congruence].
  - cbn [base36_loop]. destruct (n >? 0)%Z eqn:Epos.
    + apply Z.gtb_lt in Epos.
      assert (H2 : (2 ^ Z.of_nat (S fuel) = 2 * 2 ^ Z.of_nat fuel)%Z).
      { rewrite Nat2Z.inj_succ. apply Z.pow_succ_r. lia. }
      assert (H2pos : (0 < 2 ^ Z.of_nat fuel)%Z) by (apply Z.pow_pos_nonneg; lia).
      assert (Hq : (0 <= n / 36 < 2 ^ Z.of_nat fuel)%Z).
      { split; [apply Z.div_pos; lia|]. apply Z.div_lt_upper_bound; lia. }
      assert (Hr : (0 <= n mod 36 < 36)%Z) by (apply Z.mod_pos_bound; lia).
      destruct (base36_digit_at _ Hr) as [Hd Hl].
      set (c := nth (Z.to_nat (n mod 36)) BASE36_DIGITS "0"%char) in *.
      destruct (IH (n / 36)%Z (acc ++ [c]) Hq) as (ds & Hloop & Hval & Hlow & Hlt & Hge).
      pose proof (Z.div_mod n 36 ltac:(lia)) as Hdm.
      exists (c :: ds). split; [now rewrite Hloop, <- app_assoc|].
      split; [cbn [le_value fold_right]; fold (le_value ds); lia|].
      split; [cbn [forallb]; now rewrite Hl, Hlow|].
      split.
      * cbn [length]. rewrite pow36_succ. lia.
      * intros _. replace (length (c :: ds) - 1) with (length ds) by (simpl; lia).
        destruct ds as [|d ds']; [simpl; lia|].
        specialize (Hge ltac:(discriminate)).
        replace (length (d :: ds') - 1) with (length ds') in Hge by (simpl; lia).
        cbn [length]. rewrite pow36_succ. lia.
    + exists []. assert (n = 0%Z) by (rewrite Z.gtb_ltb in Epos; apply Z.ltb_ge in Epos; lia).
      subst n.
      rewrite app_nil_r.
      split; [reflexivity|]. split; [reflexivity|]. split; [reflexivity|].
      split; [simpl; lia|congruence].
Qed.

(** The fuel of [to_base36] is enough: more of it changes nothing. *)
Lemma base36_loop_more fuel extra n acc :
  (0 <= n < 2 ^ Z.of_nat fuel)%Z ->
  base36_loop (fuel + extra) n acc = base36_loop fuel n acc.
Proof.
  revert n acc. induction fuel as [|fuel IH]; intros n acc Hn.
  - change (2 ^ Z.of_nat 0)%Z with 1%Z in Hn. assert (n = 0%Z) by lia. subst n.
    now destruct extra.
  - cbn [Nat.add base36_loop]. destruct (n >? 0)%Z eqn:Epos; [|reflexivity].
    apply Z.gtb_lt in Epos. apply IH.
    assert (H2 : (2 ^ Z.of_nat (S fuel) = 2 * 2 ^ Z.of_nat fuel)%Z).
    { rewrite Nat2Z.inj_succ. apply Z.pow_succ_r. lia. }
    assert (H2pos : (0 < 2 ^ Z.of_nat fuel)%Z) by (apply Z.pow_pos_nonneg; lia).
    split; [apply Z.div_pos; lia|]. apply Z.div_lt_upper_bound; lia.
Qed.

Lemma log2_fuel value :
  (0 < value)%Z -> (0 <= value < 2 ^ Z.of_nat (S (Z.to_nat (Z.log2 value))))%Z.
Proof.
  intros Hv. pose proof (Z.log2_spec value Hv) as [_ Hlog].
  pose proof (Z.log2_nonneg value) as Hnn.
  rewrite Nat2Z.inj_succ, Z2Nat.id by lia. lia.
Qed.

Lemma base36_loop_fuel value extra :
  (0 < value)%Z ->
  base36_loop (S (Z.to_nat (Z.log2 value)) + extra) value []
  = base36_loop (S (Z.to_nat (Z.log2 value))) value [].
Proof. intros Hv. apply base36_loop_more, log2_fuel, Hv. Qed.

Lemma int36_snoc s c : int36 (s ++ [c]) = (36 * int36 s + int36_digit c)%Z.
Proof. unfold int36. now rewrite fold_left_app. Qed.

Lemma int36_rev ds : int36 (rev ds) = le_value ds.
Proof.
  induction ds as [|c ds IH]; [reflexivity|].
  cbn [rev]. rewrite int36_snoc, IH. cbn [le_value fold_right]. fold (le_value ds). lia.
Qed.

Lemma int36_zeros k s : int36 (repeat "0"%char k ++ s) = int36 s.
Proof.
  unfold int36. rewrite fold_left_app.
  replace (fold_left _ (repeat "0"%char k) 0%Z) with 0%Z; [reflexivity|].
  induction k as [|k IH]; [reflexivity|]. cbn [repeat fold_left].
  change (36 * 0 + int36_digit "0"%char)%Z with 0%Z. exact IH.
Qed.

(** The digits [to_base36] computes for a value that is not negative. *)
Lemma to_base36_digits (value : Z) :
  (0 <= value)%Z ->
  exists ds,
    (if (value =? 0)%Z then ["0"%char]
     else base36_loop (S (Z.to_nat (Z.log2 value))) value []) = ds
    /\ le_value ds = value
    /\ forallb is_base36_lower ds = true
    /\ 1 <= length ds
    /\ (value < 36 ^ Z.of_nat (length ds))%Z
    /\ (if (value =? 0)%Z then length ds = 1
        else (36 ^ Z.of_nat (length ds - 1) <= value)%Z).
Proof.
  intros Hv. destruct (value =? 0)%Z eqn:E.
  - apply Z.eqb_eq in E. subst value. exists ["0"%char].
    split; [reflexivity|]. split; [reflexivity|]. split; [reflexivity|].
    split; [simpl; lia|]. split; [simpl; lia|reflexivity].
  - apply Z.eqb_neq in E. assert (Hpos : (0 < value)%Z) by lia.
    destruct (base36_loop_spec _ value [] (log2_fuel value Hpos))
      as (ds & Hloop & Hval & Hlow & Hlt & Hge).
    exists ds. split; [exact Hloop|]. split; [exact Hval|]. split; [exact Hlow|].
    assert (Hne : ds <> []) by (intros ->; simpl in Hval; lia).
    split; [destruct ds; [congruence|simpl; lia]|].
    split; [exact Hlt|]. now apply Hge.
Qed.

Lemma to_base36_width_check (value width : Z) (ds : str) :
  (0 <= value)%Z -> 1 <= length ds ->
  (value < 36 ^ Z.of_nat (length ds))%Z ->
  (if (value =? 0)%Z then length ds = 1
   else (36 ^ Z.of_nat (length ds - 1) <= value)%Z) ->
  (Z.of_nat (length ds) >? width)%Z = false <-> (1 <= width)%Z /\ (value < 36 ^ width)%Z.
Proof.
  intros Hv Hlen Hlt Hge. rewrite Z.gtb_ltb, Z.ltb_ge. split.
  - intros Hw. split; [lia|].
    eapply Z.lt_le_trans; [exact Hlt|]. apply Z.pow_le_mono_r; lia.
  - intros [Hw Hvw]. destruct (Z.le_gt_cases (Z.of_nat (length ds)) width) as [|Hgt];
      [assumption|exfalso].
    destruct (value =? 0)%Z; [lia|].
    assert (Hmono : (36 ^ width <= 36 ^ Z.of_nat (length ds - 1))%Z)
      by (apply Z.pow_le_mono_r; lia).
    lia.
Qed.

Lemma base36_lower_char c : is_base36_lower c = true -> is_base36_char c = true.
Proof. by_cases_on_char c. Qed.

Lemma rjust_length width fill s : length s <= width -> length (rjust width fill s) = width.
Proof. intros H. unfold rjust. rewrite length_app, repeat_length. lia. Qed.

Lemma forallb_repeat {A} (f : A -> bool) x k : f x = true -> forallb f (repeat x k) = true.
Proof. intros H. induction k as [|k IH]; [reflexivity|]. simpl. now rewrite H. Qed.

Lemma forallb_rev_intro {A} (f : A -> bool) l : forallb f l = true -> forallb f (rev l) = true.
Proof.
  rewrite !forallb_forall. intros H x Hx. apply H. now apply in_rev.
Qed.

Lemma to_base36_done (value width : Z) :
  (0 <= value)%Z -> (1 <= width)%Z -> (value < 36 ^ width)%Z ->
  exists s,
    to_base36 value width = Done s
    /\ length s = Z.to_nat width
    /\ forallb is_base36_lower s = true
    /\ int36 s = value.
Proof.
  intros Hv Hw Hvw. unfold to_base36.
  replace (value <? 0)%Z with false by (symmetry; apply Z.ltb_ge; lia).
  destruct (to_base36_digits value Hv) as (ds & -> & Hval & Hlow & Hlen & Hlt & Hge).
  cbv zeta. rewrite length_rev.
  pose proof (to_base36_width_check value width ds Hv Hlen Hlt Hge) as [_ Hcheck].
  rewrite (Hcheck (conj Hw Hvw)).
  assert (Hfit : length ds <= Z.to_nat width).
  { destruct (to_base36_width_check value width ds Hv Hlen Hlt Hge) as [_ H].
    specialize (H (conj Hw Hvw)). rewrite Z.gtb_ltb, Z.ltb_ge in H. lia. }
  eexists. split; [reflexivity|]. split; [|split].
  - apply rjust_length. now rewrite length_rev.
  - unfold rjust. rewrite forallb_app, forallb_repeat by reflexivity.
    now rewrite forallb_rev_intro.
  - unfold rjust. now rewrite int36_zeros, int36_rev.
Qed.

(** X15. For a width of one at least, [to_base36] turns a value from 0 up to
    [36 ^ width - 1] into a string of exactly [width] characters, all digits
    or lowercase letters, that [int(_, 36)] reads back as the value. *)
Theorem to_base36_round_trip (value width : Z) :
  (0 <= value)%Z -> (1 <= width)%Z -> (value < 36 ^ width)%Z ->
  exists s,
    to_base36 value width = Done s
    /\ length s = Z.to_nat width
    /\ forallb is_base36_lower s = true
    /\ int36 s = value.
Proof. exact (to_base36_done value width). Qed.

Lemma to_base36_round_trip_witness :
  exists s,
    to_base36 46655 4 = Done s
    /\ length s = Z.to_nat 4
    /\ forallb is_base36_lower s = true
    /\ int36 s = 46655%Z.
Proof. apply to_base36_round_trip; [lia|lia|reflexivity]. Defined.

(** X16. [to_base36] returns exactly for the values from 0 up to
    [36 ^ width - 1] of a width of one at least. It raises [ValueError]
    otherwise: about the sign for a negative value, else about the width,
    when the value has more digits than the width or the width is less than
    one. *)
Theorem to_base36_returns_iff (value width : Z) :
  ((exists s, to_base36 value width = Done s)
   <-> (0 <= value)%Z /\ (1 <= width)%Z /\ (value < 36 ^ width)%Z)
  /\ (forall e, to_base36 value width = Fail e ->
        e = TreeValueError
              (if (value <? 0)%Z
               then lit "Negative values cannot be converted to base-36"
               else lit "Value exceeds allotted width for base-36 encoding")).
Proof.
  split; [split|].
  - intros [s H]. unfold to_base36 in H.
    destruct (value <? 0)%Z eqn:Eneg; [discriminate|]. apply Z.ltb_ge in Eneg.
    destruct (to_base36_digits value Eneg) as (ds & Hds & Hval & Hlow & Hlen & Hlt & Hge).
    rewrite Hds in H. cbv zeta in H. rewrite length_rev in H.
    destruct (Z.of_nat (length ds) >? width)%Z eqn:Ew; [discriminate|].
    apply (to_base36_width_check value width ds Eneg Hlen Hlt Hge) in Ew.
    now split.
  - intros (Hv & Hw & Hvw).
    destruct (to_base36_done value width Hv Hw Hvw) as (s & H & _). now exists s.
  - intros e H. unfold to_base36 in H. destruct (value <? 0)%Z; [congruence|].
    cbv zeta in H. destruct (_ >? width)%Z; congruence.
Qed.

(* ------------------------------------------------------------------------ *)
(** * [find_next_stem] *)
(* ------------------------------------------------------------------------ *)

Lemma int36_digit_range c :
  is_base36_char c = true -> ((0 <=? int36_digit c) && (int36_digit c <=? 35))%Z = true.
Proof. by_cases_on_char c. Qed.

(** A stem of four digits has a value from 0 to [MAX_VALUE]. *)
Lemma int36_stem_range stem :
  BASE36_STEM_fullmatch stem = true -> (0 <= int36 stem <= MAX_VALUE)%Z.
Proof.
  unfold BASE36_STEM_fullmatch. intros H. apply andb_true_iff in H as [Hlen Hall].
  apply Nat.eqb_eq in Hlen.
  destruct stem as [|a [|b [|c [|d [|x t]]]]]; try discriminate Hlen.
  cbn [forallb] in Hall.
  repeat (apply andb_true_iff in Hall as [?H Hall]).
  repeat match goal with
         | H : is_base36_char _ = true |- _ =>
             apply int36_digit_range in H; apply andb_true_iff in H as [?L ?U];
             apply Z.leb_le in L; apply Z.leb_le in U
         end.
  unfold int36, MAX_VALUE. cbn [fold_left].
  change (36 ^ 4 - 1)%Z with 1679615%Z. lia.
Qed.

Lemma scan_stem_max highest name :
  scan_stem highest name
  = if BASE36_STEM_fullmatch (path_stem name)
    then Z.max highest (number_of name) else highest.
Proof.
  unfold scan_stem, number_of. cbv zeta.
  destruct (BASE36_STEM_fullmatch _); [|reflexivity].
  destruct (int36 (path_stem name) >? highest)%Z eqn:E.
  - apply Z.gtb_lt in E. lia.
  - rewrite Z.gtb_ltb in E. apply Z.ltb_ge in E. lia.
Qed.

(** The highest number the loop finds: no less than the start, no less than
    the number of any numbered name, and one of them. *)
Lemma scan_fold_spec names highest :
  let found := fold_left scan_stem (glob_tree names) highest in
  (highest <= found)%Z
  /\ (forall name, In name names -> numbered name = true -> (number_of name <= found)%Z)
  /\ (found = highest
      \/ exists name, In name names /\ numbered name = true /\ found = number_of name).
Proof.
  revert highest. induction names as [|n rest IH]; intros highest; cbv zeta.
  - simpl. split; [lia|]. split; [intros ? []|now left].
  - unfold glob_tree. cbn [List.filter]. fold (glob_tree rest).
    destruct (endswith (lit ".tree") n) eqn:Eg.
    + cbn [fold_left]. rewrite scan_stem_max.
      destruct (BASE36_STEM_fullmatch (path_stem n)) eqn:Ef.
      * destruct (IH (Z.max highest (number_of n))) as (H1 & H2 & H3).
        split; [lia|]. split.
        -- intros name [<-|Hin] Hnum; [lia|now apply H2].
        -- assert (Hn : numbered n = true) by (unfold numbered; now rewrite Eg, Ef).
           destruct H3 as [H3|(name & Hin & Hnum & H3)].
           ++ destruct (Z.max_spec highest (number_of n)) as [[_ Hm]|[_ Hm]].
              ** right. exists n. split; [now left|]. split; [exact Hn|lia].
              ** left. lia.
           ++ right. exists name. split; [now right|now split].
      * destruct (IH highest) as (H1 & H2 & H3).
        split; [exact H1|]. split.
        -- intros name [<-|Hin] Hnum; [|now apply H2].
           unfold numbered in Hnum. rewrite Ef, andb_false_r in Hnum. discriminate.
        -- destruct H3 as [H3|(name & Hin & Hnum & H3)]; [now left|].
           right. exists name. split; [now right|now split].
    + destruct (IH highest) as (H1 & H2 & H3).
      split; [exact H1|]. split.
      * intros name [<-|Hin] Hnum; [|now apply H2].
        unfold numbered in Hnum. rewrite Eg in Hnum. discriminate.
      * destruct H3 as [H3|(name & Hin & Hnum & H3)]; [now left|].
        right. exists name. split; [now right|now split].
Qed.

Lemma numbered_range name :
  numbered name = true -> (0 <= number_of name <= MAX_VALUE)%Z.
Proof.
  unfold numbered, number_of. intros H. apply andb_true_iff in H as [_ H].
  now apply int36_stem_range.
Qed.

Lemma highest_range names :
  (-1 <= fold_left scan_stem (glob_tree names) (-1) <= MAX_VALUE)%Z.
Proof.
  destruct (scan_fold_spec names (-1)%Z) as (H1 & _ & [H3|(name & _ & Hnum & H3)]).
  - rewrite H3. unfold MAX_VALUE. change (36 ^ 4 - 1)%Z with 1679615%Z. lia.
  - split; [exact H1|]. rewrite H3. now apply numbered_range.
Qed.

Lemma rfind_char_none c s : ~ In c s -> rfind_char c s = None.
Proof.
  induction s as [|x t IH]; [reflexivity|]. intros H. cbn [rfind_char].
  rewrite IH by (intros Hin; apply H; now right).
  destruct (Ascii.eqb x c) eqn:E; [|reflexivity].
  apply Ascii.eqb_eq in E. subst x. exfalso. apply H. now left.
Qed.

Lemma rfind_char_last c a b :
  ~ In c b -> rfind_char c (a ++ c :: b) = Some (length a).
Proof.
  intros Hb. induction a as [|x a IH].
  - cbn [app rfind_char length]. rewrite (rfind_char_none c b Hb).
    now rewrite Ascii.eqb_refl.
  - cbn [app rfind_char length]. now rewrite IH.
Qed.

(** The stem of a name made of a non-empty part and the suffix [.tree]. *)
Lemma path_stem_tree stem :
  stem <> [] -> path_stem (stem ++ lit ".tree") = stem.
Proof.
  intros Hne. unfold path_stem.
  change (lit ".tree") with ("."%char :: lit "tree").
  rewrite rfind_char_last.
  - assert (Hpos : (0 <? length stem) = true).
    { apply Nat.ltb_lt. destruct stem; [congruence|simpl; lia]. }
    assert (Hlt : (length stem <? length (stem ++ "."%char :: lit "tree") - 1) = true).
    { apply Nat.ltb_lt. rewrite length_app. simpl. lia. }
    rewrite Hpos, Hlt. cbn [andb]. now rewrite take_app_length.
  - intros H. simpl in H. repeat (destruct H as [H|H]; [discriminate H|]). destruct H.
Qed.

Lemma numbered_stem stem :
  BASE36_STEM_fullmatch stem = true -> numbered (stem ++ lit ".tree") = true.
Proof.
  intros H. unfold numbered. rewrite endswith_app. cbn [andb].
  rewrite path_stem_tree; [exact H|].
  intros ->. discriminate H.
Qed.

(** What [find_next_stem] does, from the highest number found. *)
Lemma find_next_stem_cases names :
  let highest := fold_left scan_stem (glob_tree names) (-1)%Z in
  (highest = MAX_VALUE /\ find_next_stem names = Fail names_exhausted)
  \/ ((highest < MAX_VALUE)%Z
      /\ exists stem,
          find_next_stem names = Done stem
          /\ length stem = 4
          /\ forallb is_base36_lower stem = true
          /\ int36 stem = (highest + 1)%Z).
Proof.
  cbv zeta. pose proof (highest_range names) as Hr. unfold find_next_stem. cbv zeta.
  set (highest := fold_left scan_stem (glob_tree names) (-1)%Z) in *.
  destruct (highest + 1 >? MAX_VALUE)%Z eqn:E.
  - left. apply Z.gtb_lt in E. split; [lia|reflexivity].
  - right. rewrite Z.gtb_ltb in E. apply Z.ltb_ge in E. split; [lia|].
    destruct (to_base36_done (highest + 1) 4) as (s & -> & Hlen & Hlow & Hval).
    + lia.
    + lia.
    + unfold MAX_VALUE in E. lia.
    + exists s. now repeat split.
Qed.

Lemma fullmatch_lower stem :
  length stem = 4 -> forallb is_base36_lower stem = true ->
  BASE36_STEM_fullmatch stem = true.
Proof.
  intros Hlen Hlow. unfold BASE36_STEM_fullmatch. rewrite Hlen. cbn [Nat.eqb andb].
  revert Hlow. apply forallb_impl, base36_lower_char.
Qed.

Lemma find_next_stem_done (names : list str) (stem : str) :
  find_next_stem names = Done stem ->
  BASE36_STEM_fullmatch stem = true
  /\ forallb is_base36_lower stem = true
  /\ (forall name, In name names -> numbered name = true ->
                   (number_of name < int36 stem)%Z)
  /\ (int36 stem = 0%Z
      \/ exists name, In name names /\ numbered name = true
                      /\ int36 stem = (number_of name + 1)%Z)
  /\ ~ In (stem ++ lit ".tree") names.
Proof.
  intros H. destruct (find_next_stem_cases names) as [[_ He]|[_ (s & Hs & Hlen & Hlow & Hval)]];
    [congruence|].
  assert (s = stem) by congruence. subst s.
  destruct (scan_fold_spec names (-1)%Z) as (_ & Hmax & Hwho).
  pose proof (fullmatch_lower stem Hlen Hlow) as Hfull.
  assert (Habove : forall name, In name names -> numbered name = true ->
                                (number_of name < int36 stem)%Z).
  { intros name Hin Hnum. specialize (Hmax name Hin Hnum). lia. }
  split; [exact Hfull|]. split; [exact Hlow|]. split; [exact Habove|]. split.
  - destruct Hwho as [Hw|(name & Hin & Hnum & Hw)]; [left; lia|].
    right. exists name. split; [exact Hin|]. split; [exact Hnum|lia].
  - intros Hin. specialize (Habove _ Hin (numbered_stem stem Hfull)).
    unfold number_of in Habove. rewrite path_stem_tree in Habove; [lia|].
    intros ->. discriminate Hfull.
Qed.

(** X17. The stem [find_next_stem] returns is new: four characters, digits
    or lowercase letters, with a number above that of every numbered
    [.tree] name of the directory, one above the highest of them (0 when
    there is none); so no entry of the directory bears the name made of it. *)
Theorem find_next_stem_fresh (names : list str) (stem : str) :
  find_next_stem names = Done stem ->
  BASE36_STEM_fullmatch stem = true
  /\ forallb is_base36_lower stem = true
  /\ (forall name, In name names -> numbered name = true ->
                   (number_of name < int36 stem)%Z)
  /\ (int36 stem = 0%Z
      \/ exists name, In name names /\ numbered name = true
                      /\ int36 stem = (number_of name + 1)%Z)
  /\ ~ In (stem ++ lit ".tree") names.
Proof. exact (find_next_stem_done names stem). Qed.

Lemma find_next_stem_fresh_witness :
  ~ In (lit "000b" ++ lit ".tree")
       [lit "0001.tree"; lit "000A.tree"; lit "notes.tree"; lit "000b.txt"].
Proof.
  apply (find_next_stem_fresh
           [lit "0001.tree"; lit "000A.tree"; lit "notes.tree"; lit "000b.txt"]
           (lit "000b")).
  vm_compute. reflexivity.
Defined.

Lemma find_next_stem_fail (names : list str) :
  ((exists e, find_next_stem names = Fail e)
   <-> exists name, In name names /\ numbered name = true /\ number_of name = MAX_VALUE)
  /\ (forall e, find_next_stem names = Fail e -> e = names_exhausted).
Proof.
  destruct (scan_fold_spec names (-1)%Z) as (_ & Hmax & Hwho).
  destruct (find_next_stem_cases names) as [[Hh He]|[Hh (s & Hs & _)]].
  - split; [|intros e H; congruence].
    split; [intros _|intros _; now exists names_exhausted].
    destruct Hwho as [Hw|(name & Hin & Hnum & Hw)].
    + rewrite Hh in Hw. discriminate Hw.
    + exists name. split; [exact Hin|]. split; [exact Hnum|]. congruence.
  - split; [|intros e H; congruence]. split.
    + intros [e He]. congruence.
    + intros (name & Hin & Hnum & Hn). specialize (Hmax name Hin Hnum). lia.
Qed.

(** X18. [find_next_stem] raises exactly when a numbered [.tree] name of
    the directory has the number [MAX_VALUE], as [zzzz.tree] or [ZZZZ.tree]
    has; the exception is then the [ValueError] that the names are
    exhausted, and it raises nothing else. *)
Theorem find_next_stem_exhausted (names : list str) :
  ((exists e, find_next_stem names = Fail e)
   <-> exists name, In name names /\ numbered name = true /\ number_of name = MAX_VALUE)
  /\ (forall e, find_next_stem names = Fail e -> e = names_exhausted).
Proof. exact (find_next_stem_fail names). Qed.

Lemma scan_stem_swap h a b : scan_stem (scan_stem h a) b = scan_stem (scan_stem h b) a.
Proof.
  rewrite !scan_stem_max.
  destruct (BASE36_STEM_fullmatch (path_stem a)), (BASE36_STEM_fullmatch (path_stem b));
    try reflexivity; lia.
Qed.

Lemma glob_scan names h :
  fold_left scan_stem (glob_tree names) h
  = fold_left (fun acc name => if endswith (lit ".tree") name
                               then scan_stem acc name else acc) names h.
Proof.
  revert h. induction names as [|n rest IH]; intros h; [reflexivity|].
  unfold glob_tree. cbn [List.filter fold_left]. fold (glob_tree rest).
  destruct (endswith (lit ".tree") n); [cbn [fold_left]|]; apply IH.
Qed.

(** X19. The stem does not depend on the order in which the directory yields
    its entries. *)
Theorem find_next_stem_order (names names' : list str) :
  Permutation names names' -> find_next_stem names = find_next_stem names'.
Proof.
  intros Hp. unfold find_next_stem. rewrite !glob_scan.
  replace (fold_left _ names' (-1)%Z)
    with (fold_left (fun acc name => if endswith (lit ".tree") name
                                     then scan_stem acc name else acc) names (-1)%Z);
    [reflexivity|].
  generalize (-1)%Z. induction Hp as [|x l l' _ IH|x y l|l l' l'' _ IH1 _ IH2]; intros h.
  - reflexivity.
  - cbn [fold_left]. apply IH.
  - cbn [fold_left]. f_equal.
    destruct (endswith (lit ".tree") x), (endswith (lit ".tree") y);
      try reflexivity. apply scan_stem_swap.
  - now rewrite IH1.
Qed.

Lemma find_next_stem_order_witness :
  find_next_stem [lit "0002.tree"; lit "0001.tree"]
  = find_next_stem [lit "0001.tree"; lit "0002.tree"].
Proof. apply find_next_stem_order. apply perm_swap. Defined.

(* ------------------------------------------------------------------------ *)
(** * [create_tree_file] *)
(* ------------------------------------------------------------------------ *)

Lemma In_listing (entries : gmap str dir_entry) (name : str) :
  In name (listing entries) <-> is_Some (entries !! name).
Proof.
  unfold listing. rewrite in_map_iff. split.
  - intros ([n x] & <- & Hin). apply list_elem_of_In, elem_of_map_to_list in Hin.
    now exists x.
  - intros [x Hx]. exists (name, x). split; [reflexivity|].
    now apply list_elem_of_In, elem_of_map_to_list.
Qed.

(** X20. In a directory, [create_tree_file] either fails because the names
    are exhausted, leaving the directory as it was, or adds one file under a
    name no entry had, holding the date line, an empty line, the import line
    and an empty line, and returns its path. It never meets an existing
    target, and it changes no entry that was there. *)
Theorem create_tree_file_adds_one
    (tree_dir date_line : str) (entries : gmap str dir_entry) :
  match create_tree_file tree_dir date_line (Directory entries) with
  | (st, Done target) =>
      exists stem,
        find_next_stem (listing entries) = Done stem
        /\ target = path_join tree_dir (stem ++ lit ".tree")
        /\ entries !! (stem ++ lit ".tree") = None
        /\ st = Directory (<[stem ++ lit ".tree"
                             := RegularFile (new_tree_content date_line)]> entries)
        /\ (forall name x, entries !! name = Some x ->
                           <[stem ++ lit ".tree"
                             := RegularFile (new_tree_content date_line)]> entries !! name
                           = Some x)
  | (st, Fail e) =>
      st = Directory entries
      /\ e = names_exhausted
      /\ exists name, is_Some (entries !! name) /\ numbered name = true
                      /\ number_of name = MAX_VALUE
  end.
Proof.
  unfold create_tree_file.
  destruct (find_next_stem (listing entries)) as [stem|e] eqn:Ef.
  - pose proof (find_next_stem_done _ _ Ef) as (_ & _ & _ & _ & Hfresh).
    rewrite In_listing in Hfresh.
    destruct (entries !! (stem ++ lit ".tree")) as [x|] eqn:El.
    { exfalso. apply Hfresh. now exists x. }
    exists stem. split; [reflexivity|]. split; [reflexivity|]. split; [exact El|].
    split.
    + unfold new_tree_content. now rewrite <- !app_assoc.
    + intros name x Hx. rewrite lookup_insert_ne; [exact Hx|]. intros <-. congruence.
  - split; [reflexivity|].
    destruct (find_next_stem_fail (listing entries)) as [Hiff Herr].
    split; [now apply Herr|].
    destruct Hiff as [Hiff _]. destruct (Hiff (ex_intro _ e Ef)) as (name & Hin & Hnum & Hn).
    exists name. split; [now apply In_listing|now split].
Qed.

(* ------------------------------------------------------------------------ *)
(** * Worked examples of create_tree.py *)
(* ------------------------------------------------------------------------ *)

Example to_base36_examples :
  to_base36 0 4 = Done (lit "0000")
  /\ to_base36 35 4 = Done (lit "000z")
  /\ to_base36 36 4 = Done (lit "0010")
  /\ to_base36 1679615 4 = Done (lit "zzzz")
  /\ to_base36 1679616 4
     = Fail (TreeValueError (lit "Value exceeds allotted width for base-36 encoding"))
  /\ to_base36 0 0
     = Fail (TreeValueError (lit "Value exceeds allotted width for base-36 encoding"))
  /\ find_next_stem [lit "0001.tree"; lit "000A.tree"; lit "notes.tree"; lit "00zz.txt";
                     lit ".tree"; lit "abcde.tree"]
     = Done (lit "000b")
  /\ find_next_stem [] = Done (lit "0000")
  /\ path_stem (lit "archive.tar.gz") = lit "archive.tar"
  /\ path_stem (lit ".tree") = lit ".tree".
Proof. repeat split; vm_compute; reflexivity. Qed.

(* ------------------------------------------------------------------------ *)
(** * Worked examples of the limits of [int] and of the paths *)
(* ------------------------------------------------------------------------ *)

Example int_digit_limit_examples :
  _parse_month (Some (repeat "0"%char 4299 ++ lit "7")) = Ok 7%Z
  /\ _parse_month (Some (repeat "0"%char 4300 ++ lit "7")) = Raise ValueError
  /\ _format_date [(lit "year", lit "2021"); (lit "day", repeat "9"%char 4301)]
     = Ok (Some (lit "2021-01-01"))
  /\ _format_date [(lit "year", lit "2021"); (lit "day", repeat "9"%char 4300)]
     = Ok (Some (lit "2021-01-31"))
  /\ _format_date [(lit "year", repeat "0"%char 4300 ++ lit "1")] = Raise ValueError
  /\ py_int (lit " +1_000 ") = Some 1000%Z.
Proof. repeat split; vm_compute; reflexivity. Qed.

Example path_join_examples :
  path_join (lit "trees/references") (lit "doe2021.tree") = lit "trees/references/doe2021.tree"
  /\ path_join (lit ".") (lit "doe2021.tree") = lit "doe2021.tree"
  /\ path_join (lit "/") (lit "doe2021.tree") = lit "/doe2021.tree".
Proof. repeat split; reflexivity. Qed.
